(** * thriftproxy: a forwarding proxy for Thrift services

    A shallow embedding of [thriftproxy.py] (Python 2) and the properties
    of its introspection, proxy construction, call tracing and connection
    scope.

    Conventions.
    - A Python [str] is a [string] (a sequence of bytes).
    - A dict is a [gmap]; [dir] lists the keys of a namespace in sorted
      order, as the interpreter does.
    - Code that can raise returns a [Res]; code that also prints or calls
      the backend runs in the monad [M] over a [World] holding the
      chronological event log, the [softspace] flag of standard output and
      the module globals [tracing] and [return_values].
    - A generator is its unfolding [Gen]: the items it yields, in order,
      and the way it stops. *)

From Stdlib Require Import ZArith Ascii String List Lia.
From stdpp Require Import base decidable option list strings pretty sorting gmap fin_maps.

Set Warnings "-register-all".

Local Open Scope string_scope.
Local Open Scope list_scope.

(** ** Python values and exceptions *)

(** The data values that travel through the proxy: arguments, results and
    the [thrift_spec] tuples. *)
Inductive PyVal : Type :=
  | VNone : PyVal
  | VBool (b : bool) : PyVal
  | VInt (z : Z) : PyVal
  | VStr (s : string) : PyVal
  | VTuple (items : list PyVal) : PyVal.

Inductive PyExc : Type :=
  | AssertionError
  | StopIteration
  | AttributeError
  | TypeError
  | IndexError
  | ImportError
  | ValueError
  | RuntimeError
  | ServiceError (type_name : string) (payload : PyVal).

(** Outcome of a computation that can raise. *)
Inductive Res (A : Type) : Type :=
  | Ok (a : A)
  | Raise (e : PyExc).
Arguments Ok {A} a.
Arguments Raise {A} e.

#[global] Instance res_ret : MRet Res := fun A a => Ok a.
#[global] Instance res_bind : MBind Res := fun A B k r =>
  match r with
  | Ok a => k a
  | Raise e => Raise e
  end.

Fixpoint res_mapM {A B} (f : A -> Res B) (l : list A) : Res (list B) :=
  match l with
  | [] => Ok []
  | x :: l' => y ← f x; ys ← res_mapM f l'; Ok (y :: ys)
  end.

(** ** Builtins of the host used by the source *)

Definition squote : ascii := ascii_of_nat 39.
Definition dquote : ascii := ascii_of_nat 34.
Definition backslash : ascii := ascii_of_nat 92.
Definition newline : ascii := ascii_of_nat 10.
Definition nl : string := String newline EmptyString.

Fixpoint str_mem (c : ascii) (s : string) : bool :=
  match s with
  | EmptyString => false
  | String d s' => Ascii.eqb c d || str_mem c s'
  end.

Definition hex_digit (n : nat) : ascii :=
  match n with
  | 0 => "0" | 1 => "1" | 2 => "2" | 3 => "3" | 4 => "4" | 5 => "5"
  | 6 => "6" | 7 => "7" | 8 => "8" | 9 => "9" | 10 => "a" | 11 => "b"
  | 12 => "c" | 13 => "d" | 14 => "e" | _ => "f"
  end%char.

(** One byte of a [str] as [repr] writes it between quotes [q]. *)
Definition repr_char (q c : ascii) : string :=
  let n := nat_of_ascii c in
  if Ascii.eqb c q || Ascii.eqb c backslash then String backslash (String c EmptyString)
  else if Nat.eqb n 9 then "\t"
  else if Nat.eqb n 10 then "\n"
  else if Nat.eqb n 13 then "\r"
  else if Nat.ltb n 32 || Nat.leb 127 n then
    String backslash (String "x" (String (hex_digit (n / 16)) (String (hex_digit (n mod 16)) EmptyString)))
  else String c EmptyString.

Fixpoint repr_chars (q : ascii) (s : string) : string :=
  match s with
  | EmptyString => EmptyString
  | String c s' => repr_char q c +:+ repr_chars q s'
  end.

(** [repr] of a [str]: single quotes, unless the text holds a single quote
    and no double quote. *)
Definition repr_str (s : string) : string :=
  let q := if str_mem squote s && negb (str_mem dquote s) then dquote else squote in
  String q (repr_chars q s +:+ String q EmptyString).

Fixpoint str_join (sep : string) (l : list string) : string :=
  match l with
  | [] => EmptyString
  | [s] => s
  | s :: l' => s +:+ sep +:+ str_join sep l'
  end.

(** [repr] on the values of [PyVal] (integers within the machine range). *)
Fixpoint repr (v : PyVal) : string :=
  match v with
  | VNone => "None"
  | VBool true => "True"
  | VBool false => "False"
  | VInt z => pretty z
  | VStr s => repr_str s
  | VTuple items =>
      "(" +:+ str_join ", " (map repr items)
          +:+ (match items with [_] => "," | _ => EmptyString end) +:+ ")"
  end.

(** [sep.join(items)]: every item has to be a [str]. *)
Fixpoint py_join_items (l : list PyVal) : Res (list string) :=
  match l with
  | [] => Ok []
  | VStr s :: l' => ss ← py_join_items l'; Ok (s :: ss)
  | _ :: _ => Raise TypeError
  end.

Definition py_join (sep : string) (l : list PyVal) : Res string :=
  match py_join_items l with
  | Ok ss => Ok (str_join sep ss)
  | Raise e => Raise e
  end.

(** Iterating a [str] yields its characters as one-character strings. *)
Fixpoint str_chars (s : string) : list PyVal :=
  match s with
  | EmptyString => []
  | String c s' => VStr (String c EmptyString) :: str_chars s'
  end.

(** [v[i]] for an index [i >= 0]. *)
Definition py_getitem (v : PyVal) (i : nat) : Res PyVal :=
  match v with
  | VTuple items =>
      match items !! i with
      | Some x => Ok x
      | None => Raise IndexError
      end
  | VStr s =>
      match String.get i s with
      | Some c => Ok (VStr (String c EmptyString))
      | None => Raise IndexError
      end
  | _ => Raise TypeError
  end.

(** [fmt % v] for a format with a single [%r]: a tuple is taken as the
    argument list, anything else as the one argument. *)
Definition py_format_r (pre : string) (v : PyVal) : Res string :=
  match v with
  | VTuple [x] => Ok (pre +:+ repr x)
  | VTuple _ => Raise TypeError
  | _ => Ok (pre +:+ repr v)
  end.

(** [s.endswith(suffix)] and the slice [s[:-k]] for [k > 0]. *)
Definition endswith (s suffix : string) : bool :=
  Nat.leb (String.length suffix) (String.length s) &&
  String.eqb (substring (String.length s - String.length suffix) (String.length suffix) s) suffix.

Definition slice_to_neg (k : nat) (s : string) : string :=
  substring 0 (String.length s - k) s.

(** ** The object model seen by the introspection

    Only what the source inspects is kept: the name, the defining module,
    the namespace that [getattr] and [dir] see (own and inherited entries
    merged by the host), the direct bases, and whether the class is
    new-style (a new-style class has a [__class__] attribute, a classic
    class has none). *)

Inductive Event : Type :=
  | EWrite (text : string)
  | EInvoke (name : string) (args : list PyVal) (kwargs : gmap string PyVal).

(** A function or bound method: [__name__], [__doc__] and what a call
    answers, given the arguments and the events so far. *)
Record Method : Type := {
  m_name : string;
  m_doc : option string;
  m_call : list PyVal -> gmap string PyVal -> list Event -> Res PyVal
}.

Inductive Attr : Type :=
  | AVal (v : PyVal)
  | AFunc (m : Method).

Inductive PyClass : Type :=
  | Class (name module : string) (new_style : bool)
          (attrs : gmap string Attr) (bases : list PyClass).

Definition cls_name (c : PyClass) : string := let 'Class n _ _ _ _ := c in n.
Definition cls_module (c : PyClass) : string := let 'Class _ m _ _ _ := c in m.
Definition cls_new_style (c : PyClass) : bool := let 'Class _ _ b _ _ := c in b.
Definition cls_attrs (c : PyClass) : gmap string Attr := let 'Class _ _ _ a _ := c in a.
Definition cls_bases (c : PyClass) : list PyClass := let 'Class _ _ _ _ b := c in b.

Inductive PyObj : Type :=
  | OClass (c : PyClass)
  | OInstance (c : PyClass) (own : gmap string Attr)
  | OType.

(** [getattr(o, '__class__', o)] *)
Definition getattr_class_or_self (o : PyObj) : PyObj :=
  match o with
  | OInstance c _ => OClass c
  | OClass c => if cls_new_style c then OType else o
  | OType => OType
  end.

(** [hasattr(o, '__class__')] *)
Definition hasattr_class (o : PyObj) : bool :=
  match o with
  | OClass c => cls_new_style c
  | OInstance _ _ => true
  | OType => true
  end.

(** The namespace attribute lookup goes through. *)
Definition obj_attrs (o : PyObj) : gmap string Attr :=
  match o with
  | OClass c => cls_attrs c
  | OInstance c own => own ∪ cls_attrs c
  | OType => ∅
  end.

(** [o.__name__] *)
Definition obj_name (o : PyObj) : Res string :=
  match o with
  | OClass c => Ok (cls_name c)
  | OInstance _ _ => Raise AttributeError
  | OType => Ok "type"
  end.

(** [o.__module__] *)
Definition obj_module (o : PyObj) : Res string :=
  match o with
  | OClass c => Ok (cls_module c)
  | OInstance c _ => Ok (cls_module c)
  | OType => Ok "__builtin__"
  end.

(** [o.__bases__] *)
Definition obj_bases (o : PyObj) : Res (list PyClass) :=
  match o with
  | OClass c => Ok (cls_bases c)
  | OInstance _ _ => Raise AttributeError
  | OType => Ok []
  end.

(** [getattr(o, name)] *)
Definition obj_getattr (o : PyObj) (name : string) : Res Attr :=
  match obj_attrs o !! name with
  | Some a => Ok a
  | None => Raise AttributeError
  end.

Definition str_le (a b : string) : Prop := String.leb a b.
#[global] Instance str_le_dec a b : Decision (str_le a b).
Proof. unfold str_le. apply _. Defined.

(** [dir(o)]: the attribute names, sorted. *)
Definition dir (o : PyObj) : list string :=
  merge_sort str_le (map_to_list (obj_attrs o)).*1.

(** ** get_interface *)

(** [MAGIC_METHOD_RE = re.compile(R'^__.+?__$')] and its [match]: after
    the leading [__] and one character, either [__] ends the name (a final
    newline allowed by [$]) or one more character other than a newline is
    taken. *)
Fixpoint magic_tail (s : string) : bool :=
  String.eqb s "__" || String.eqb s ("__" +:+ nl) ||
  match s with
  | String c s' => negb (Ascii.eqb c newline) && magic_tail s'
  | EmptyString => false
  end.

Definition MAGIC_METHOD_RE_match (s : string) : bool :=
  match s with
  | String "_" (String "_" (String c rest)) =>
      negb (Ascii.eqb c newline) && magic_tail rest
  | _ => false
  end.

(** [next(ifilter(lambda x: x.__name__ == 'Iface', bases))] *)
Fixpoint first_named_Iface (bases : list PyClass) : Res PyObj :=
  match bases with
  | [] => Raise StopIteration
  | b :: bases' =>
      if String.eqb (cls_name b) "Iface" then Ok (OClass b)
      else first_named_Iface bases'
  end.

Definition get_interface (client : PyObj) : Res PyObj :=
  let class_obj := getattr_class_or_self client in
  if hasattr_class class_obj then Raise AssertionError
  else
    name ← obj_name class_obj;
    if String.eqb name "Iface" then Ok client
    else
      bases ← obj_bases class_obj;
      first_named_Iface bases.

(** ** Generators *)

Record Gen (A : Type) : Type := MkGen {
  gen_items : list A;
  gen_stop : option PyExc
}.
Arguments MkGen {A} _ _.
Arguments gen_items {A} _.
Arguments gen_stop {A} _.

(** A generator whose body is a [for] loop over a source that yields
    [items] and then stops with [stop]; the body yields at most once per
    item. A [StopIteration] out of the source ends the loop. *)
Fixpoint for_yield {A B} (body : A -> Res (option B))
    (items : list A) (stop : option PyExc) : Gen B :=
  match items with
  | [] =>
      match stop with
      | Some StopIteration => MkGen [] None
      | _ => MkGen [] stop
      end
  | x :: items' =>
      match body x with
      | Raise e => MkGen [] (Some e)
      | Ok None => for_yield body items' stop
      | Ok (Some y) =>
          let g := for_yield body items' stop in
          MkGen (y :: gen_items g) (gen_stop g)
      end
  end.

(** [dict(g)] for a generator of pairs: later pairs replace earlier ones. *)
Definition dict_of_items {V} (items : list (string * V)) : gmap string V :=
  foldl (fun d kv => <[kv.1 := kv.2]> d) ∅ items.

Definition py_dict {V} (g : Gen (string * V)) : Res (gmap string V) :=
  match gen_stop g with
  | None | Some StopIteration => Ok (dict_of_items (gen_items g))
  | Some e => Raise e
  end.

(** ** get_service_methods *)

Inductive ModAttr : Type :=
  | MClass (c : PyClass)
  | MAttr (a : Attr).

(** The importable modules, by dotted name. *)
Abbreviation Modules := (gmap string (gmap string ModAttr)).

(** [__import__(name, globals(), locals(), fromlist)] with a non-empty
    [fromlist]: the module called [name]. *)
Definition py_import (mods : Modules) (name : string) : Res (gmap string ModAttr) :=
  if String.eqb name EmptyString then Raise ValueError
  else match mods !! name with
       | Some m => Ok m
       | None => Raise ImportError
       end.

Definition mod_getattr (m : gmap string ModAttr) (name : string) : Res ModAttr :=
  match m !! name with
  | Some a => Ok a
  | None => Raise AttributeError
  end.

(** [a.thrift_spec] *)
Definition get_thrift_spec (a : ModAttr) : Res Attr :=
  match a with
  | MClass c =>
      match cls_attrs c !! "thrift_spec" with
      | Some spec => Ok spec
      | None => Raise AttributeError
      end
  | MAttr _ => Raise AttributeError
  end.

(** [getattr(base_module, args_name).thrift_spec] for the method [x],
    after the import of the defining module. *)
Definition lookup_schema (mods : Modules) (base_module_name x : string) : Res Attr :=
  let args_name := x +:+ "_args" in
  base_module ← py_import mods base_module_name;
  args ← mod_getattr base_module args_name;
  get_thrift_spec args.

(** One turn of the loop over [dir(interface)]. *)
Definition service_method_step (mods : Modules) (base_module_name : string)
    (x : string) : Res (option (string * Attr)) :=
  if negb (MAGIC_METHOD_RE_match x) then
    spec ← lookup_schema mods base_module_name x;
    Ok (Some (x, spec))
  else Ok None.

(** The body before the loop runs at the first [next()], so what
    [get_interface] raises comes out of the generator; the assignment to
    [client_class] is never read. *)
Definition get_service_methods (mods : Modules) (client : PyObj) : Gen (string * Attr) :=
  match get_interface client with
  | Raise e => MkGen [] (Some e)
  | Ok interface =>
      match obj_module interface with
      | Raise e => MkGen [] (Some e)
      | Ok base_module_name =>
          for_yield (service_method_step mods base_module_name) (dir interface) None
      end
  end.

(** ** Standard output, the globals and the backend *)

Record World : Type := MkWorld {
  events : list Event;
  softspace : bool;
  tracing : bool;
  return_values : bool
}.

Definition M (A : Type) : Type := World -> Res A * World.

#[global] Instance M_ret : MRet M := fun A a w => (Ok a, w).
#[global] Instance M_bind : MBind M := fun A B k m w =>
  match m w with
  | (Ok a, w') => k a w'
  | (Raise e, w') => (Raise e, w')
  end.

Definition lift {A} (r : Res A) : M A := fun w => (r, w).
Definition read_tracing : M bool := fun w => (Ok (tracing w), w).
Definition read_return_values : M bool := fun w => (Ok (return_values w), w).

Definition log (e : Event) (sp : bool) (w : World) : World :=
  MkWorld (events w ++ [e]) sp (tracing w) (return_values w).

Definition is_space (c : ascii) : bool :=
  let n := nat_of_ascii c in Nat.eqb n 32 || (Nat.leb 9 n && Nat.leb n 13).

Fixpoint last_char (s : string) : option ascii :=
  match s with
  | EmptyString => None
  | String c EmptyString => Some c
  | String _ s' => last_char s'
  end.

(** The flag a printed [str] leaves on the stream: set unless the text
    ends in whitespace other than a blank. *)
Definition softspace_after (s : string) : bool :=
  match last_char s with
  | None => true
  | Some c => negb (is_space c) || Ascii.eqb c " "
  end.

(** [print s,] : a blank first when the flag is set, then the text. *)
Definition print_item (s : string) : M unit := fun w =>
  let w1 := if softspace w then log (EWrite " ") false w else w in
  (Ok tt, log (EWrite s) (softspace_after s) w1).

(** the end of a [print] statement without a trailing comma *)
Definition print_newline : M unit := fun w =>
  (Ok tt, log (EWrite nl) false w).

(** the call of the bound backend method with the received arguments *)
Definition invoke (m : Method) (varargs : list PyVal) (kwargs : gmap string PyVal) : M PyVal :=
  fun w => (m_call m varargs kwargs (events w),
            log (EInvoke (m_name m) varargs kwargs) (softspace w) w).

(** ** proxy_wrapper *)

(** The closure [wrapper]: the bound method, its argument specification
    and the docstring set on it. *)
Record Wrapper : Type := MkWrapper {
  w_method : Method;
  w_spec : Attr;
  w_doc : string
}.

(** The proxy type made by [type(name, (object,), method_dict)], and its
    instance. *)
Record Proxy : Type := MkProxy {
  proxy_type_name : string;
  proxy_methods : gmap string Wrapper
}.

(** [args_thrift_spec[i]] *)
Definition spec_getitem (spec : Attr) (i : nat) : Res PyVal :=
  match spec with
  | AVal v => py_getitem v i
  | AFunc _ => Raise TypeError
  end.

(** [ '='.join((args_thrift_spec[1 + x][2], repr(varargs[x]))) ] *)
Definition varargs_item (spec : Attr) (x : nat) (v : PyVal) : Res PyVal :=
  entry ← spec_getitem spec (1 + x);
  field ← py_getitem entry 2;
  s ← py_join "=" [field; VStr (repr v)];
  Ok (VStr s).

(** [ ('='.join((key, repr(value),) for (key, value) in kwargs.iteritems())) ]:
    one [join] over the pairs themselves. *)
Definition kwargs_gen (kwargs : gmap string PyVal) : Res string :=
  py_join "=" (map (fun kv => VTuple [VStr kv.1; VStr (repr kv.2)]) (map_to_list kwargs)).

(** The text of the pre-call line:
    [ '%s(%s)' % (method.__name__, ', '.join(chain(varargs_gen, kwargs_gen))) ].
    [kwargs_gen] is computed when it is assigned, [varargs_gen] when the
    chain is consumed. *)
Definition trace_line (d : Wrapper) (varargs : list PyVal)
    (kwargs : gmap string PyVal) : Res string :=
  kw ← kwargs_gen kwargs;
  items ← res_mapM (fun xv => varargs_item (w_spec d) xv.1 xv.2)
                   (zip (seq 0 (length varargs)) varargs);
  body ← py_join ", " (items ++ str_chars kw);
  Ok (m_name (w_method d) +:+ "(" +:+ body +:+ ")").

(** [wrapper(client, *varargs, **kwargs)]: [client] is the proxy instance
    the method is looked up on; the globals are read when they are used. *)
Definition wrapper (d : Wrapper) (client : Proxy) (varargs : list PyVal)
    (kwargs : gmap string PyVal) : M PyVal :=
  t ← read_tracing;
  _ ← (if t : bool then
         line ← lift (trace_line d varargs kwargs);
         _ ← print_item line;
         rv ← read_return_values;
         if negb rv then print_newline else mret tt
       else mret tt);
  result ← invoke (w_method d) varargs kwargs;
  t ← read_tracing;
  rv ← read_return_values;
  _ ← (if t && rv then
         s ← lift (py_format_r " -> " result);
         _ ← print_item s;
         print_newline
       else mret tt);
  mret result.

(** [wrapper.__doc__ = 'proxy for ' + method.__name__ + method.__doc__]:
    a data value has no [__name__], and a [None] docstring cannot be
    concatenated to a [str]. *)
Definition proxy_wrapper (method : Attr) (args_thrift_spec : Attr) : Res Wrapper :=
  match method with
  | AVal _ => Raise AttributeError
  | AFunc m =>
      match m_doc m with
      | None => Raise TypeError
      | Some doc =>
          Ok (MkWrapper m args_thrift_spec ("proxy for " +:+ m_name m +:+ doc))
      end
  end.

(** ** make_proxy_methods, make_proxy_type, make_proxy *)

Definition make_proxy_methods (mods : Modules) (client : PyObj) : Gen (string * Wrapper) :=
  let g := get_service_methods mods client in
  for_yield
    (fun item : string * Attr =>
       let (method_name, thrift_args_spec) := item in
       method ← obj_getattr client method_name;
       proxy_method ← proxy_wrapper method thrift_args_spec;
       Ok (Some (method_name, proxy_method)))
    (gen_items g) (gen_stop g).

Definition make_proxy_type (mods : Modules) (client : PyObj) : Res Proxy :=
  method_dict ← py_dict (make_proxy_methods mods client);
  module ← obj_module client;
  Ok (MkProxy (module +:+ ".Proxy") method_dict).

Definition make_proxy (mods : Modules) (client : PyObj) : Res Proxy :=
  make_proxy_type mods client.

(** ** main: locating the defining module *)

Definition base_module_name (client_type : string) : string :=
  if endswith client_type ".Client" then slice_to_neg 7 client_type else client_type.

(** Lines 126-129 of [main]: the client and processor types. *)
Definition load_types (mods : Modules) (client_type : string) : Res (ModAttr * ModAttr) :=
  base_module ← py_import mods (base_module_name client_type);
  client_type ← mod_getattr base_module "Client";
  processor_type ← mod_getattr base_module "Processor";
  Ok (client_type, processor_type).

(** ** make_client: the scope around the backend connection *)

Module Connection.

Inductive Step : Type :=
  | TSocket (hostname : string) (port : Z)
  | TWrap (buffered : bool)
  | TBinaryProtocol
  | ClientInterface
  | TransportOpen
  | Body
  | TransportClose.

(** What the collaborators answer: [None] when the call returns, [Some e]
    when it raises [e]. *)
Record Env : Type := MkEnv {
  socket_raises : option PyExc;
  wrap_raises : option PyExc;
  protocol_raises : option PyExc;
  client_result : Res PyObj;
  open_raises : option PyExc;
  close_raises : option PyExc
}.

(** How the [finally] clause leaves: the pending exception again, an
    exception of [close] of its own, or nothing pending. *)
Inductive Leave : Type :=
  | Pending (e : PyExc)
  | Fresh (e : PyExc)
  | Fallthrough.

(** [finally: transport.close()] *)
Definition finally_close (env : Env) (pending : option PyExc) : list Step * Leave :=
  ([TransportClose],
   match close_raises env with
   | Some e' => Fresh e'
   | None => match pending with Some e => Pending e | None => Fallthrough end
   end).

(** The generator up to its [yield]. *)
Inductive Started : Type :=
  | Yielded (client : PyObj)
  | Stopped (how : Leave).

Definition make_client_next (env : Env) (port : Z) (hostname : string)
    (buffered : bool) : list Step * Started :=
  match socket_raises env with
  | Some e => ([TSocket hostname port], Stopped (Pending e))
  | None =>
  match wrap_raises env with
  | Some e => ([TSocket hostname port; TWrap buffered], Stopped (Pending e))
  | None =>
    let pre := [TSocket hostname port; TWrap buffered] in
    match protocol_raises env with
    | Some e =>
        let (t, l) := finally_close env (Some e) in
        (pre ++ [TBinaryProtocol] ++ t, Stopped l)
    | None =>
    match client_result env with
    | Raise e =>
        let (t, l) := finally_close env (Some e) in
        (pre ++ [TBinaryProtocol; ClientInterface] ++ t, Stopped l)
    | Ok client =>
    match open_raises env with
    | Some e =>
        let (t, l) := finally_close env (Some e) in
        (pre ++ [TBinaryProtocol; ClientInterface; TransportOpen] ++ t, Stopped l)
    | None =>
        (pre ++ [TBinaryProtocol; ClientInterface; TransportOpen], Yielded client)
    end end end
  end end.

(** The generator resumed at its [yield], by [next()] ([None]) or by
    [throw(e)]. *)
Definition make_client_resume (env : Env) (thrown : option PyExc) : list Step * Leave :=
  finally_close env thrown.

(** [GeneratorContextManager.__enter__] *)
Definition cm_enter (env : Env) (port : Z) (hostname : string) (buffered : bool)
    : list Step * Res PyObj :=
  let (t, st) := make_client_next env port hostname buffered in
  (t, match st with
      | Yielded client => Ok client
      | Stopped (Pending StopIteration) | Stopped (Fresh StopIteration)
      | Stopped Fallthrough => Raise RuntimeError
      | Stopped (Pending e) | Stopped (Fresh e) => Raise e
      end).

(** [GeneratorContextManager.__exit__]: the exception the [with]
    statement ends with, if any. *)
Definition cm_exit (env : Env) (raised : option PyExc) : list Step * option PyExc :=
  let (t, l) := make_client_resume env raised in
  (t, match raised with
      | None =>
          match l with
          | Fallthrough | Pending StopIteration | Fresh StopIteration => None
          | Pending e | Fresh e => Some e
          end
      | Some v =>
          match l with
          | Fresh StopIteration | Fallthrough => None
          | Fresh e => Some e
          | Pending _ => Some v
          end
      end).

(** [with make_client(client_interface, port, hostname, buffered) as client: body] *)
Definition with_make_client (env : Env) (port : Z) (hostname : string)
    (buffered : bool) (body : PyObj -> option PyExc) : list Step * option PyExc :=
  let (t1, r) := cm_enter env port hostname buffered in
  match r with
  | Raise e => (t1, Some e)
  | Ok client =>
      let (t2, out) := cm_exit env (body client) in
      (t1 ++ [Body] ++ t2, out)
  end.

Definition is_close (s : Step) : bool :=
  match s with TransportClose => true | _ => false end.

Definition closes (t : list Step) : nat := length (filter (fun s => is_close s = true) t).

(** The transport exists once both constructors before the [try] have
    returned. *)
Definition transport_built (env : Env) : Prop :=
  socket_raises env = None /\ wrap_raises env = None.

End Connection.

(** ** Observations on a run *)

Definition is_write (e : Event) : bool :=
  match e with EWrite _ => true | EInvoke _ _ _ => false end.

(** the text on standard output *)
Fixpoint stdout (evs : list Event) : string :=
  match evs with
  | [] => EmptyString
  | EWrite s :: evs' => s +:+ stdout evs'
  | EInvoke _ _ _ :: evs' => stdout evs'
  end.

(** What a traced call writes before it invokes the backend. *)
Definition pre_call_writes (w : World) (line : string) : list Event :=
  (if softspace w then [EWrite " "] else []) ++ [EWrite line]
  ++ (if return_values w then [] else [EWrite nl]).

(** The world once a traced call has written its pre-call text. *)
Definition traced_world (w : World) (line : string) : World :=
  MkWorld (events w ++ pre_call_writes w line)
          (if return_values w then softspace_after line else false)
          (tracing w) (return_values w).

(** The events a step from [w] to [w'] has added. *)
Definition new_events (w w' : World) : list Event :=
  drop (length (events w)) (events w').


(** The label of positional argument [i] is the third field of the
    specification entry at position [i + 1]. *)
Definition labelled (spec : Attr) (names : list string) : Prop :=
  forall i n, names !! i = Some n ->
    exists entry, spec_getitem spec (1 + i) = Ok entry /\
                  py_getitem entry 2 = Ok (VStr n).

Record Call : Type := MkCall {
  c_delegate : Wrapper;
  c_varargs : list PyVal;
  c_kwargs : gmap string PyVal
}.

(** Calls made one after the other through the delegates of a proxy, the
    caller keeping each outcome. *)
Fixpoint run_calls (p : Proxy) (calls : list Call) (w : World) : list (Res PyVal) * World :=
  match calls with
  | [] => ([], w)
  | c :: calls' =>
      let (r, w1) := wrapper (c_delegate c) p (c_varargs c) (c_kwargs c) w in
      let (rs, w2) := run_calls p calls' w1 in
      (r :: rs, w2)
  end.


(** The names of the interface that are service methods: those
    [MAGIC_METHOD_RE] does not match. *)
Definition service_names (interface : PyObj) : list string :=
  filter (fun x => MAGIC_METHOD_RE_match x = false) (dir interface).

(** One turn of both loops for the name [x]: schema, bound method,
    delegate. *)
Definition delegate_for (mods : Modules) (base_module_name : string)
    (client : PyObj) (x : string) : Res Wrapper :=
  spec ← lookup_schema mods base_module_name x;
  method ← obj_getattr client x;
  proxy_wrapper method spec.

(** The two loops taken together: what one name of [dir(interface)]
    contributes to the proxy. *)
Definition fused_step (mods : Modules) (base_module_name : string)
    (client : PyObj) (x : string) : Res (option (string * Wrapper)) :=
  if negb (MAGIC_METHOD_RE_match x) then
    d ← delegate_for mods base_module_name client x;
    Ok (Some (x, d))
  else Ok None.

(** the pair a successful step yields *)
Definition yielded {A} (r : Res (option A)) : option A :=
  match r with
  | Ok o => o
  | Raise _ => None
  end.

(** The method [x] has no usable schema in the defining module: no
    sibling [x_args], or one without a [thrift_spec]. *)
Definition schema_missing (mods : Modules) (base_module_name x : string) : Prop :=
  exists m, mods !! base_module_name = Some m /\
    match m !! (x +:+ "_args") with
    | None => True
    | Some (MAttr _) => True
    | Some (MClass c) => cls_attrs c !! "thrift_spec" = None
    end.

(** ** The Echo service of the scenarios

    [service Echo { string echo(1: string message) }] as the Thrift
    compiler lays it out in module [Echo]. *)

Module Echo.

Definition echo : Method := {|
  m_name := "echo";
  m_doc := Some "doc";
  m_call := fun varargs kwargs _ =>
    match varargs, map_to_list kwargs with
    | [message], [] => Ok message
    | [], [("message", message)] => Ok message
    | _, _ => Raise TypeError
    end
|}.

Definition echo_args_thrift_spec : PyVal :=
  VTuple [VNone; VTuple [VInt 1; VInt 11; VStr "message"; VNone; VNone]].

Definition echo_args : PyClass :=
  Class "echo_args" "Echo" false {[ "thrift_spec" := AVal echo_args_thrift_spec ]} [].

Definition Iface : PyClass :=
  Class "Iface" "Echo" false
    {[ "__doc__" := AVal VNone; "__module__" := AVal (VStr "Echo");
       "echo" := AFunc echo ]} [].

Definition Client : PyClass :=
  Class "Client" "Echo" false
    {[ "__doc__" := AVal VNone; "__module__" := AVal (VStr "Echo");
       "echo" := AFunc echo;
       "send_echo" := AFunc {| m_name := "send_echo"; m_doc := None;
                               m_call := fun _ _ _ => Ok VNone |};
       "recv_echo" := AFunc {| m_name := "recv_echo"; m_doc := None;
                               m_call := fun _ _ _ => Ok VNone |} ]}
    [Iface].

Definition Processor : PyClass :=
  Class "Processor" "Echo" false {[ "__module__" := AVal (VStr "Echo") ]} [Iface].

Definition module : gmap string ModAttr :=
  {[ "Iface" := MClass Iface; "Client" := MClass Client;
     "Processor" := MClass Processor; "echo_args" := MClass echo_args ]}.

Definition modules : Modules := {[ "Echo" := module ]}.

(** the connected client, an instance of [Client] *)
Definition client : PyObj := OInstance Client {[ "_seqid" := AVal (VInt 0) ]}.

(** the delegate [make_proxy] builds for [echo] *)
Definition delegate : Wrapper :=
  MkWrapper echo (AVal echo_args_thrift_spec) "proxy for echodoc".

Definition proxy : Proxy := MkProxy "Echo.Proxy" {[ "echo" := delegate ]}.

(** the same delegate over a backend that is down *)
Definition failing_echo : Method := {|
  m_name := "echo";
  m_doc := Some "doc";
  m_call := fun _ _ _ => Raise (ServiceError "EchoDown" VNone)
|}.

Definition failing_delegate : Wrapper :=
  MkWrapper failing_echo (AVal echo_args_thrift_spec) "proxy for echodoc".

(** a second service method, [ping], for which module [Echo] has no
    [ping_args] *)
Definition ping : Method := {|
  m_name := "ping";
  m_doc := Some "doc";
  m_call := fun _ _ _ => Ok VNone
|}.

Definition Iface_ping : PyClass :=
  Class "Iface" "Echo" false {[ "echo" := AFunc echo; "ping" := AFunc ping ]} [].

Definition client_ping : PyObj :=
  OInstance (Class "Client" "Echo" false
               {[ "echo" := AFunc echo; "ping" := AFunc ping ]} [Iface_ping]) ∅.

(** a client whose [echo] has no docstring *)
Definition echo_undocumented : Method := {|
  m_name := "echo";
  m_doc := None;
  m_call := m_call echo
|}.

Definition client_undocumented : PyObj :=
  OInstance (Class "Client" "Echo" false
               {[ "echo" := AFunc echo_undocumented ]} [Iface]) ∅.

(** the start of a run: nothing printed yet *)
Definition world (tracing return_values : bool) : World :=
  MkWorld [] false tracing return_values.

End Echo.

(** ** Further observations and sample data *)

Fixpoint str_concat (l : list string) : string :=
  match l with
  | [] => EmptyString
  | s :: l' => s +:+ str_concat l'
  end.

(** What a call adds to standard output when tracing is on and return
    values are off: its line and a newline, or nothing when the line
    cannot be built. *)
Definition trace_text (c : Call) : string :=
  match trace_line (c_delegate c) (c_varargs c) (c_kwargs c) with
  | Ok line => line +:+ nl
  | Raise _ => EmptyString
  end.

(** Lines 132-134 of [main], the listing under [--verbose]:
    [for (attrname, spec) in get_service_methods(client):
       print attrname, getattr(proxy, attrname).__doc__].
    The names asked for are not magic, so only the methods of the proxy
    type answer; [attrname] is printed before the attribute is fetched. *)
Definition proxy_getattr_doc (proxy : Proxy) (attrname : string) : Res string :=
  match proxy_methods proxy !! attrname with
  | Some d => Ok (w_doc d)
  | None => Raise AttributeError
  end.

Fixpoint verbose_loop (proxy : Proxy) (items : list (string * Attr)) : M unit :=
  match items with
  | [] => mret tt
  | (attrname, _) :: items' =>
      _ ← print_item attrname;
      doc ← lift (proxy_getattr_doc proxy attrname);
      _ ← print_item doc;
      _ ← print_newline;
      verbose_loop proxy items'
  end.

Definition verbose_listing (mods : Modules) (client : PyObj) (proxy : Proxy) : M unit :=
  let g := get_service_methods mods client in
  _ ← verbose_loop proxy (gen_items g);
  match gen_stop g with
  | None | Some StopIteration => mret tt
  | Some e => lift (Raise e)
  end.

(** The line of the listing for the name [x]. *)
Definition listing_text (proxy : Proxy) (x : string) : string :=
  match proxy_methods proxy !! x with
  | Some d => x +:+ (if softspace_after x then " " else EmptyString) +:+ w_doc d +:+ nl
  | None => EmptyString
  end.

Module Samples.

(** a backend method that answers a pair *)
Definition pair : Method := {|
  m_name := "pair";
  m_doc := Some "doc";
  m_call := fun varargs _ _ =>
    match varargs with
    | [v] => Ok (VTuple [v; v])
    | _ => Raise TypeError
    end
|}.

Definition pair_delegate : Wrapper :=
  MkWrapper pair
    (AVal (VTuple [VNone; VTuple [VInt 1; VInt 11; VStr "item"; VNone; VNone]]))
    "proxy for pairdoc".

(** a client whose class has no base at all *)
Definition client_without_interface : PyObj :=
  OInstance (Class "Client" "Echo" false {[ "echo" := AFunc Echo.echo ]} []) ∅.

(** a client of a new-style class *)
Definition client_new_style : PyObj :=
  OInstance (Class "Client" "Echo" true {[ "echo" := AFunc Echo.echo ]} [Echo.Iface]) ∅.

End Samples.

(** * Properties *)

(** ** get_interface *)

Lemma first_named_Iface_is_base bases i :
  first_named_Iface bases = Ok i ->
  exists b, i = OClass b /\ b ∈ bases /\ cls_name b = "Iface".
Proof.
  induction bases as [|b bases IH]; simpl; [discriminate|].
  destruct (String.eqb (cls_name b) "Iface") eqn:E.
  - intros [= <-]. exists b. split; [done|]. split; [left|].
    by apply String.eqb_eq.
  - intros H. destruct (IH H) as (b' & -> & Hin & Hn).
    exists b'. split; [done|]. split; [by right|done].
Qed.

(** C10. [get_interface] asserts that the resolved class object has no
    [__class__] attribute: when the resolved class carries one (a
    new-style class, an instance, [type]) the assertion fails, so an
    interface is returned only for a classic class; and when that classic
    class is named [Iface] the argument itself is returned, whatever the
    bases are. *)
Theorem get_interface_accepts_classic_only (client : PyObj) :
  (hasattr_class (getattr_class_or_self client) = true ->
   get_interface client = Raise AssertionError) /\
  (forall i, get_interface client = Ok i ->
   exists c, getattr_class_or_self client = OClass c /\ cls_new_style c = false) /\
  (forall module attrs bases,
   getattr_class_or_self client = OClass (Class "Iface" module false attrs bases) ->
   get_interface client = Ok client).
Proof.
  unfold get_interface. split; [|split].
  - intros ->. reflexivity.
  - intros i. destruct (getattr_class_or_self client) as [c| |] eqn:E; simpl.
    + destruct (cls_new_style c) eqn:Hn; [discriminate|]. eauto.
    + discriminate.
    + discriminate.
  - intros module attrs bases ->. reflexivity.
Qed.

Lemma get_interface_accepts_classic_only_witness :
  get_interface (OClass (Class "Client" "Echo" true ∅ [Echo.Iface])) = Raise AssertionError /\
  (exists c, getattr_class_or_self Echo.client = OClass c /\ cls_new_style c = false) /\
  get_interface (OInstance Echo.Iface ∅) = Ok (OInstance Echo.Iface ∅).
Proof.
  split; [|split].
  - apply (get_interface_accepts_classic_only
             (OClass (Class "Client" "Echo" true ∅ [Echo.Iface]))).
    reflexivity.
  - apply (proj1 (proj2 (get_interface_accepts_classic_only Echo.client))
             (OClass Echo.Iface)).
    reflexivity.
  - apply (proj2 (proj2 (get_interface_accepts_classic_only (OInstance Echo.Iface ∅)))
             "Echo" (cls_attrs Echo.Iface) []).
    reflexivity.
Defined.

(** ** main: the defining module *)

Lemma substring_0_app (s t : string) :
  substring 0 (String.length s) (s +:+ t) = s.
Proof. induction s as [|c s IH]; simpl; [by destruct t|by rewrite IH]. Qed.

Lemma substring_all (t : string) : substring 0 (String.length t) t = t.
Proof. induction t as [|d t IHt]; simpl; [done|by rewrite IHt]. Qed.

Lemma substring_skip_app (s t : string) :
  substring (String.length s) (String.length t) (s +:+ t) = t.
Proof. induction s as [|c s IH]; simpl; [apply substring_all|done]. Qed.

Lemma length_app_str (s t : string) :
  String.length (s +:+ t) = String.length s + String.length t.
Proof. induction s as [|c s IH]; simpl; [done|by rewrite IH]. Qed.

Lemma endswith_app (s suffix : string) : endswith (s +:+ suffix) suffix = true.
Proof.
  unfold endswith. rewrite length_app_str.
  replace (String.length s + String.length suffix - String.length suffix)
    with (String.length s) by lia.
  rewrite substring_skip_app, String.eqb_refl, andb_true_r.
  apply Nat.leb_le. lia.
Qed.

Lemma slice_to_neg_app (s suffix : string) :
  slice_to_neg (String.length suffix) (s +:+ suffix) = s.
Proof.
  unfold slice_to_neg. rewrite length_app_str.
  replace (String.length s + String.length suffix - String.length suffix)
    with (String.length s) by lia.
  apply substring_0_app.
Qed.

(** C8. A service type name ending in [.Client] loses exactly that
    suffix, any other name is kept as given, and the client and processor
    types are the attributes [Client] and [Processor] of the module of
    that name. *)
Theorem client_suffix_stripped_and_types_loaded (mods : Modules) (name : string) :
  base_module_name (name +:+ ".Client") = name /\
  (endswith name ".Client" = false -> base_module_name name = name) /\
  (forall c p,
     load_types mods name = Ok (c, p) <->
     base_module_name name <> EmptyString /\
     exists m, mods !! base_module_name name = Some m /\
               m !! "Client" = Some c /\ m !! "Processor" = Some p).
Proof.
  split; [|split].
  - unfold base_module_name. rewrite endswith_app.
    apply (slice_to_neg_app name ".Client").
  - unfold base_module_name. by intros ->.
  - intros c p. unfold load_types, py_import, mod_getattr.
    destruct (String.eqb (base_module_name name) EmptyString) eqn:E; simpl.
    + apply String.eqb_eq in E. split; [discriminate|]. by intros [? _].
    + apply String.eqb_neq in E.
      destruct (mods !! base_module_name name) as [m|]; simpl.
      * destruct (m !! "Client") as [c'|] eqn:Hc; simpl.
        -- destruct (m !! "Processor") as [p'|] eqn:Hp; simpl.
           ++ split.
              ** intros [= <- <-]. split; [done|]. by exists m.
              ** intros [_ (m' & [= <-] & Hc' & Hp')]. congruence.
           ++ split; [discriminate|].
              intros [_ (m' & [= <-] & _ & Hp')]. congruence.
        -- split; [discriminate|].
           intros [_ (m' & [= <-] & Hc' & _)]. congruence.
      * split; [discriminate|]. intros [_ (m' & [=] & _)].
Qed.

Lemma client_suffix_stripped_and_types_loaded_witness :
  base_module_name "Echo" = "Echo" /\
  load_types Echo.modules "Echo.Client" = Ok (MClass Echo.Client, MClass Echo.Processor).
Proof.
  split.
  - apply (proj1 (proj2 (client_suffix_stripped_and_types_loaded Echo.modules "Echo"))).
    reflexivity.
  - apply (proj2 (proj2 (client_suffix_stripped_and_types_loaded Echo.modules "Echo.Client"))).
    split; [discriminate|]. exists Echo.module. by vm_compute.
Defined.

(** ** make_client *)

(** C5. Once the transport is constructed, every way out of the
    [make_client] scope - the body completing, the protocol or the client
    constructor raising, [open] raising, the body raising - calls
    [transport.close()] exactly once, as the last step of the scope. *)
Theorem transport_closed_exactly_once
    (env : Connection.Env) (port : Z) (hostname : string) (buffered : bool)
    (body : PyObj -> option PyExc) :
  Connection.transport_built env ->
  let t := (Connection.with_make_client env port hostname buffered body).1 in
  Connection.closes t = 1 /\ last t = Some Connection.TransportClose.
Proof.
  destruct env as [s w p c o cl]. intros [Hs Hw]. simpl in Hs, Hw. subst s w.
  unfold Connection.with_make_client, Connection.cm_enter,
    Connection.make_client_next, Connection.cm_exit,
    Connection.make_client_resume, Connection.finally_close. simpl.
  destruct p as [ep|]; simpl.
  { destruct cl as [[]|], ep; simpl; by split. }
  destruct c as [client|ec]; simpl.
  2: { destruct cl as [[]|], ec; simpl; by split. }
  destruct o as [eo|]; simpl.
  { destruct cl as [[]|], eo; simpl; by split. }
  destruct (body client) as [eb|]; simpl; by split.
Qed.

Lemma transport_closed_exactly_once_witness :
  let env := Connection.MkEnv None None None (Ok Echo.client) (Some ImportError) None in
  let t := (Connection.with_make_client env 9090 "127.0.0.1" false (fun _ => None)).1 in
  Connection.closes t = 1 /\ last t = Some Connection.TransportClose.
Proof.
  apply (transport_closed_exactly_once
           (Connection.MkEnv None None None (Ok Echo.client) (Some ImportError) None)
           9090 "127.0.0.1" false (fun _ => None)).
  split; reflexivity.
Defined.


(** ** The wrapper: tracing and forwarding *)

Lemma kwargs_gen_empty : kwargs_gen ∅ = Ok EmptyString.
Proof. unfold kwargs_gen. by rewrite map_to_list_empty. Qed.

Lemma kwargs_gen_nonempty (kwargs : gmap string PyVal) :
  kwargs ≠ ∅ -> kwargs_gen kwargs = Raise TypeError.
Proof.
  intros Hne. unfold kwargs_gen.
  destruct (map_to_list kwargs) as [|[k v] l] eqn:E.
  - by apply map_to_list_empty_iff in E.
  - reflexivity.
Qed.

Lemma trace_line_kwargs d varargs (kwargs : gmap string PyVal) :
  kwargs ≠ ∅ -> trace_line d varargs kwargs = Raise TypeError.
Proof. intros H. unfold trace_line. by rewrite (kwargs_gen_nonempty _ H). Qed.

Lemma trace_line_shape d varargs kwargs line :
  trace_line d varargs kwargs = Ok line ->
  kwargs = ∅ /\ exists body, line = m_name (w_method d) +:+ "(" +:+ body +:+ ")".
Proof.
  intros H. split.
  - destruct (decide (kwargs = ∅)) as [|Hne]; [done|].
    by rewrite (trace_line_kwargs d varargs kwargs Hne) in H.
  - unfold trace_line in H.
    destruct (kwargs_gen kwargs) as [kw|]; simpl in H; [|discriminate].
    destruct (res_mapM _ _) as [items|]; simpl in H; [|discriminate].
    destruct (py_join ", " _) as [body|]; simpl in H; [|discriminate].
    injection H as <-. by exists body.
Qed.


Lemma wrapper_trace_fails d p varargs kwargs w e :
  tracing w = true -> trace_line d varargs kwargs = Raise e ->
  wrapper d p varargs kwargs w = (Raise e, w).
Proof.
  intros Ht Hl. unfold wrapper, mbind, M_bind, read_tracing, lift. simpl.
  rewrite Ht. simpl. by rewrite Hl.
Qed.

Lemma pre_call_world w line :
  (let w1 := if softspace w then log (EWrite " ") false w else w in
   let w2 := log (EWrite line) (softspace_after line) w1 in
   if return_values w then w2 else log (EWrite nl) false w2) = traced_world w line.
Proof.
  destruct w as [evs sp tr rv]. unfold traced_world, pre_call_writes, log. simpl.
  destruct sp, rv; simpl; f_equal; by rewrite <- ?app_assoc.
Qed.

(** A traced call whose line could be built: the pre-call text, then the
    invocation, then the result text if asked for. *)
Lemma wrapper_traced d p varargs kwargs w line :
  tracing w = true -> trace_line d varargs kwargs = Ok line ->
  wrapper d p varargs kwargs w =
    let w1 := traced_world w line in
    let w2 := log (EInvoke (m_name (w_method d)) varargs kwargs) (softspace w1) w1 in
    match m_call (w_method d) varargs kwargs (events w1) with
    | Raise e => (Raise e, w2)
    | Ok result =>
        if return_values w then
          match py_format_r " -> " result with
          | Raise e => (Raise e, w2)
          | Ok s => (Ok result, (print_newline (print_item s w2).2).2)
          end
        else (Ok result, w2)
    end.
Proof.
  intros Ht Hl. rewrite <- (pre_call_world w line).
  unfold wrapper, mbind, M_bind, read_tracing, read_return_values, lift,
    mret, M_ret, invoke. simpl. rewrite Ht, Hl. simpl.
  destruct w as [evs sp tr rv]. simpl in *. subst tr.
  destruct rv, sp; simpl;
    destruct (m_call _ _ _ _) as [result|e]; simpl; try done;
    destruct (py_format_r " -> " result); simpl; done.
Qed.

Lemma str_app_nil_r (s : string) : s +:+ EmptyString = s.
Proof. induction s as [|c s IH]; [done|]. exact (f_equal (String c) IH). Qed.

Lemma py_join_strs sep (l : list string) :
  py_join sep (map VStr l) = Ok (str_join sep l).
Proof.
  unfold py_join.
  assert (py_join_items (map VStr l) = Ok l) as ->; [|done].
  induction l as [|x l IH]; simpl; [done|]. by rewrite IH.
Qed.

Lemma varargs_item_labelled spec x v entry n :
  spec_getitem spec (1 + x) = Ok entry -> py_getitem entry 2 = Ok (VStr n) ->
  varargs_item spec x v = Ok (VStr (n +:+ "=" +:+ repr v)).
Proof. intros He Hf. unfold varargs_item. rewrite He. simpl. by rewrite Hf. Qed.

Lemma varargs_items_labelled spec names varargs k :
  length names = length varargs ->
  (forall i n, names !! i = Some n ->
     exists entry, spec_getitem spec (1 + (k + i)) = Ok entry /\
                   py_getitem entry 2 = Ok (VStr n)) ->
  res_mapM (fun xv : nat * PyVal => varargs_item spec xv.1 xv.2)
           (zip (seq k (length varargs)) varargs)
  = Ok (map VStr (zip_with (fun n v => n +:+ "=" +:+ repr v) names varargs)).
Proof.
  revert names k. induction varargs as [|v varargs IH]; intros names k Hlen Hlab.
  - destruct names; [done|discriminate].
  - destruct names as [|n names]; [discriminate|]. simpl in Hlen.
    simpl. destruct (Hlab 0 n eq_refl) as (entry & He & Hf).
    rewrite Nat.add_0_r in He.
    cbn [zip_with seq length zip res_mapM fst snd].
    rewrite (varargs_item_labelled spec k v entry n He Hf).
    cbn [mbind res_bind].
    rewrite (IH names (S k)); [done|lia|].
    intros i n' Hi. destruct (Hlab (S i) n' Hi) as (entry' & He' & Hf').
    exists entry'. split; [|done].
    by replace (1 + (S k + i)) with (1 + (k + S i)) by lia.
Qed.

(** A call with positional arguments only, each with a labelled
    specification entry, has the line [name(label=repr, ...)]. *)
Lemma trace_line_positional d names varargs :
  length names = length varargs -> labelled (w_spec d) names ->
  trace_line d varargs ∅ =
    Ok (m_name (w_method d) +:+ "("
        +:+ str_join ", " (zip_with (fun n v => n +:+ "=" +:+ repr v) names varargs)
        +:+ ")").
Proof.
  intros Hlen Hlab. unfold trace_line. rewrite kwargs_gen_empty. simpl.
  rewrite (varargs_items_labelled (w_spec d) names varargs 0 Hlen); [|done].
  simpl. by rewrite app_nil_r, py_join_strs.
Qed.

(** With tracing on and return values off, such a call writes that one
    line and its newline, then forwards. *)
Lemma wrapper_traced_positional d p names varargs w :
  tracing w = true -> return_values w = false -> softspace w = false ->
  length names = length varargs -> labelled (w_spec d) names ->
  let line := m_name (w_method d) +:+ "("
              +:+ str_join ", " (zip_with (fun n v => n +:+ "=" +:+ repr v) names varargs)
              +:+ ")" in
  let r := wrapper d p varargs ∅ w in
  r.1 = m_call (w_method d) varargs ∅ (events w ++ [EWrite line; EWrite nl]) /\
  events r.2 = events w ++ [EWrite line; EWrite nl;
                             EInvoke (m_name (w_method d)) varargs ∅] /\
  stdout (events r.2) = stdout (events w ++ [EWrite (line +:+ nl)]).
Proof.
  intros Ht Hrv Hsp Hlen Hlab line r. subst r.
  rewrite (wrapper_traced d p varargs ∅ w line Ht (trace_line_positional d names varargs Hlen Hlab)).
  unfold traced_world, pre_call_writes. rewrite Hrv, Hsp. simpl.
  assert (forall evs a b, stdout (evs ++ [EWrite a; EWrite b; EInvoke (m_name (w_method d)) varargs ∅])
                          = stdout (evs ++ [EWrite (a +:+ b)])) as Hout.
  { intros evs a b. induction evs as [|[t|? ? ?] evs IH]; simpl.
    - by rewrite !str_app_nil_r.
    - by rewrite IH.
    - done. }
  destruct (m_call (w_method d) varargs ∅ _) as [result|e]; simpl;
    (split; [done|split; [by rewrite <- app_assoc|]]);
    by rewrite <- app_assoc, <- Hout.
Qed.

(** Scenario A: [echo("hi")] with tracing on and return values off. *)
Lemma scenario_A :
  wrapper Echo.delegate Echo.proxy [VStr "hi"] ∅ (Echo.world true false) =
    (Ok (VStr "hi"),
     MkWorld [EWrite "echo(message='hi')"; EWrite nl; EInvoke "echo" [VStr "hi"] ∅]
             false true false).
Proof. reflexivity. Qed.

(** C1. Forwarding is not transparent under every tracing configuration:
    with tracing on, a call that carries a keyword argument stops with a
    [TypeError] while the text for the keyword arguments is joined; the
    world is left as it was, so the bound backend method is never invoked
    and the caller does not receive the backend's outcome. *)
Theorem traced_keyword_call_never_reaches_backend
    d p varargs (kwargs : gmap string PyVal) w :
  tracing w = true -> kwargs ≠ ∅ ->
  wrapper d p varargs kwargs w = (Raise TypeError, w).
Proof.
  intros Ht Hne. apply wrapper_trace_fails; [done|].
  by apply trace_line_kwargs.
Qed.

Lemma traced_keyword_call_never_reaches_backend_witness :
  wrapper Echo.delegate Echo.proxy [] {[ "message" := VStr "hi" ]} (Echo.world true true)
    = (Raise TypeError, Echo.world true true) /\
  (invoke Echo.echo [] {[ "message" := VStr "hi" ]} (Echo.world true true)).1
    = Ok (VStr "hi").
Proof.
  split.
  - apply (traced_keyword_call_never_reaches_backend
             Echo.delegate Echo.proxy [] {[ "message" := VStr "hi" ]} (Echo.world true true)).
    + reflexivity.
    + intros H. apply (f_equal (fun m => m !! "message")) in H.
      vm_compute in H. discriminate.
  - vm_compute. reflexivity.
Defined.

(** C3. At [echo(message='hi')], tracing on and return values off, no
    trace line is written: the call ends in a [TypeError] with standard
    output untouched, where one line [echo(message='hi')] is due. *)
Theorem traced_keyword_call_writes_no_line :
  let r := wrapper Echo.delegate Echo.proxy [] {[ "message" := VStr "hi" ]}
                   (Echo.world true false) in
  r.1 = Raise TypeError /\ events r.2 = [] /\ stdout (events r.2) = EmptyString.
Proof. vm_compute. repeat split. Qed.

(** The events of a call with tracing on: none when the line cannot be
    built, otherwise the pre-call text, the invocation, then writes only. *)
Lemma wrapper_traced_events d p varargs kwargs w :
  tracing w = true ->
  match trace_line d varargs kwargs with
  | Raise e => wrapper d p varargs kwargs w = (Raise e, w)
  | Ok line =>
      (exists body, line = m_name (w_method d) +:+ "(" +:+ body +:+ ")") /\
      exists post,
        events (wrapper d p varargs kwargs w).2 =
          events w ++ pre_call_writes w line
                   ++ EInvoke (m_name (w_method d)) varargs kwargs :: post /\
        Forall (fun e => is_write e = true) post /\
        forall e,
          m_call (w_method d) varargs kwargs (events w ++ pre_call_writes w line) = Raise e ->
          (wrapper d p varargs kwargs w).1 = Raise e /\ post = []
  end.
Proof.
  intros Ht. destruct (trace_line d varargs kwargs) as [line|e] eqn:Hl.
  2: { by apply wrapper_trace_fails. }
  split; [by destruct (trace_line_shape _ _ _ _ Hl)|].
  rewrite (wrapper_traced d p varargs kwargs w line Ht Hl). cbn zeta.
  change (events (traced_world w line)) with (events w ++ pre_call_writes w line).
  destruct (m_call (w_method d) varargs kwargs _) as [result|e] eqn:Hc.
  - destruct (return_values w) eqn:Hrv.
    + destruct (py_format_r " -> " result) as [s|e].
      * unfold print_item, print_newline, log. simpl. rewrite Hrv.
        destruct (softspace_after line); simpl.
        -- exists [EWrite " "; EWrite s; EWrite nl].
           split; [by rewrite <- !app_assoc|].
           split; [by repeat constructor|]. intros e [=].
        -- exists [EWrite s; EWrite nl].
           split; [by rewrite <- !app_assoc|].
           split; [by repeat constructor|]. intros e [=].
      * exists []. simpl. split; [by rewrite <- app_assoc|].
        split; [constructor|]. intros e' [=].
    + exists []. simpl. split; [by rewrite <- app_assoc|].
      split; [constructor|]. intros e [=].
  - exists []. simpl. split; [by rewrite <- app_assoc|].
    split; [constructor|]. intros e' [= <-]. done.
Qed.

(** Where the line can be built it does come first: a call with tracing
    on and labelled positional arguments only writes the text
    [name(label=repr, ...)], then invokes the backend with the received
    arguments, then writes only; when the backend raises, the line is
    already written, the failure is the outcome and nothing follows the
    invocation. *)
Lemma positional_line_precedes_invocation d p names varargs w :
  tracing w = true -> length names = length varargs -> labelled (w_spec d) names ->
  let line := m_name (w_method d) +:+ "("
              +:+ str_join ", " (zip_with (fun n v => n +:+ "=" +:+ repr v) names varargs)
              +:+ ")" in
  exists post,
    new_events w (wrapper d p varargs ∅ w).2 =
      pre_call_writes w line ++ EInvoke (m_name (w_method d)) varargs ∅ :: post /\
    Forall (fun e => is_write e = true) post /\
    forall e,
      m_call (w_method d) varargs ∅ (events w ++ pre_call_writes w line) = Raise e ->
      (wrapper d p varargs ∅ w).1 = Raise e /\ post = [].
Proof.
  intros Ht Hlen Hlab line.
  pose proof (wrapper_traced_events d p varargs ∅ w Ht) as H.
  rewrite (trace_line_positional d names varargs Hlen Hlab) in H.
  destruct H as [_ (post & Hev & Hpost & Hraise)].
  exists post. unfold new_events. rewrite Hev, drop_app_length. done.
Qed.

(** C6. The pre-call line is not emitted for every call with tracing on:
    a call that carries a keyword argument ends in a [TypeError] while
    its line is built, with no event added and standard output untouched;
    so when the backend method raises a failure on these arguments,
    neither the line nor that failure reaches the caller. *)
Theorem keyword_call_emits_no_pre_call_line
    d p varargs (kwargs : gmap string PyVal) w e :
  tracing w = true -> kwargs ≠ ∅ ->
  m_call (w_method d) varargs kwargs (events w) = Raise e -> e ≠ TypeError ->
  let r := wrapper d p varargs kwargs w in
  new_events w r.2 = [] /\ stdout (events r.2) = stdout (events w) /\
  r.1 = Raise TypeError /\ r.1 ≠ Raise e.
Proof.
  intros Ht Hne Hcall He r. subst r.
  rewrite (wrapper_trace_fails d p varargs kwargs w TypeError Ht
             (trace_line_kwargs d varargs kwargs Hne)).
  unfold new_events. cbn [fst snd]. rewrite drop_all.
  repeat split. intros [= <-]. by apply He.
Qed.

Lemma keyword_call_emits_no_pre_call_line_witness :
  let w := Echo.world true false in
  let r := wrapper Echo.failing_delegate Echo.proxy [] {[ "message" := VStr "hi" ]} w in
  new_events w r.2 = [] /\ stdout (events r.2) = stdout (events w) /\
  r.1 = Raise TypeError /\ r.1 ≠ Raise (ServiceError "EchoDown" VNone).
Proof.
  apply (keyword_call_emits_no_pre_call_line
           Echo.failing_delegate Echo.proxy [] {[ "message" := VStr "hi" ]}
           (Echo.world true false) (ServiceError "EchoDown" VNone)).
  - reflexivity.
  - intros H. apply (f_equal (fun m => m !! "message")) in H.
    vm_compute in H. discriminate.
  - reflexivity.
  - discriminate.
Defined.

(** ** Tracing disabled *)





(** ** Generators and dicts *)

Lemma for_yield_ext {A B} (f g : A -> Res (option B)) items stop :
  (forall x, f x = g x) -> for_yield f items stop = for_yield g items stop.
Proof.
  intros Hfg. induction items as [|x items IH]; simpl; [done|].
  by rewrite Hfg, IH.
Qed.

(** A loop over a generator that is itself a loop over a list is one loop
    over the list. *)
Lemma for_yield_fuse {A B C} (g : A -> Res (option B)) (f : B -> Res (option C)) l :
  (forall x, g x <> Raise StopIteration) ->
  for_yield f (gen_items (for_yield g l None)) (gen_stop (for_yield g l None)) =
  for_yield (fun x => match g x with
                      | Ok None => Ok None
                      | Ok (Some y) => f y
                      | Raise e => Raise e
                      end) l None.
Proof.
  intros Hg. induction l as [|x l IH]; simpl; [done|].
  destruct (g x) as [[y|]|e] eqn:E; simpl.
  - destruct (f y) as [[z|]|e]; simpl; by rewrite ?IH.
  - done.
  - destruct e; try done. by destruct (Hg x).
Qed.

Lemma for_yield_all_ok {A B} (body : A -> Res (option B)) l :
  (forall x, x ∈ l -> exists o, body x = Ok o) ->
  for_yield body l None = MkGen (omap (fun x => yielded (body x)) l) None.
Proof.
  induction l as [|x l IH]; intros Hok; simpl; [done|].
  destruct (Hok x) as [o Ho]; [left|]. rewrite Ho. simpl.
  rewrite IH by (intros y Hy; apply Hok; by right).
  by destruct o.
Qed.

Lemma for_yield_some_fail {A B} (body : A -> Res (option B)) l x e :
  x ∈ l -> body x = Raise e ->
  exists x' e', x' ∈ l /\ body x' = Raise e' /\
                gen_stop (for_yield body l None) = Some e'.
Proof.
  induction l as [|y l IH]; intros Hin Hx; [by apply elem_of_nil in Hin|].
  simpl. destruct (body y) as [o|e'] eqn:Hy.
  - apply elem_of_cons in Hin as [->|Hin]; [congruence|].
    destruct (IH Hin Hx) as (x' & e' & Hin' & Hb & Hstop).
    exists x', e'. split; [by right|]. split; [done|]. by destruct o.
  - exists y, e'. split; [left|]. done.
Qed.

Lemma foldl_insert_list_to_map {V} (items : list (string * V)) (m : gmap string V) :
  foldl (fun d kv => <[kv.1 := kv.2]> d) m items = list_to_map (reverse items) ∪ m.
Proof.
  revert m. induction items as [|[k v] items IH]; intros m; simpl.
  - by rewrite (left_id_L ∅ (∪)).
  - rewrite IH, reverse_cons, list_to_map_app. simpl.
    rewrite insert_empty, <- (assoc_L (∪)). f_equal.
    by rewrite <- insert_union_singleton_l.
Qed.

Lemma py_dict_lookup {V} (items : list (string * V)) k v :
  NoDup items.*1 ->
  dict_of_items items !! k = Some v <-> (k, v) ∈ items.
Proof.
  intros Hnd. unfold dict_of_items.
  rewrite foldl_insert_list_to_map, (right_id_L ∅ (∪)).
  rewrite <- elem_of_list_to_map by (by rewrite fmap_reverse, reverse_Permutation).
  by rewrite elem_of_reverse.
Qed.

Lemma py_dict_size {V} (items : list (string * V)) :
  NoDup items.*1 ->
  size (dict_of_items items) = length items.
Proof.
  intros Hnd. unfold dict_of_items.
  rewrite foldl_insert_list_to_map, (right_id_L ∅ (∪)).
  rewrite <- size_dom, dom_list_to_map_L, size_list_to_set
    by (by rewrite fmap_reverse, reverse_Permutation).
  by rewrite length_fmap, length_reverse.
Qed.

(** ** Proxy construction *)

Lemma obj_module_total o : exists bm, obj_module o = Ok bm.
Proof. destruct o; simpl; eauto. Qed.

Lemma lookup_schema_not_stop mods bm x : lookup_schema mods bm x <> Raise StopIteration.
Proof.
  unfold lookup_schema, py_import, mod_getattr, get_thrift_spec.
  destruct (String.eqb bm EmptyString); simpl; [discriminate|].
  destruct (mods !! bm) as [m|]; simpl; [|discriminate].
  destruct (m !! (x +:+ "_args")) as [[c|a]|]; simpl; try discriminate.
  destruct (cls_attrs c !! "thrift_spec"); discriminate.
Qed.

Lemma service_method_step_not_stop mods bm x :
  service_method_step mods bm x <> Raise StopIteration.
Proof.
  unfold service_method_step.
  destruct (negb (MAGIC_METHOD_RE_match x)); [|discriminate].
  pose proof (lookup_schema_not_stop mods bm x) as H.
  destruct (lookup_schema mods bm x); [discriminate|].
  intros Hc. cbn in Hc. injection Hc as ->. by apply H.
Qed.

Lemma delegate_for_not_stop mods bm client x :
  delegate_for mods bm client x <> Raise StopIteration.
Proof.
  unfold delegate_for.
  pose proof (lookup_schema_not_stop mods bm x) as H.
  destruct (lookup_schema mods bm x) as [spec|].
  2: { intros Hc. cbn in Hc. injection Hc as ->. by apply H. }
  cbn.
  unfold obj_getattr. destruct (obj_attrs client !! x) as [[v|m]|]; cbn; try discriminate.
  destruct (m_doc m); discriminate.
Qed.

Lemma make_proxy_methods_fused mods client iface bm :
  get_interface client = Ok iface -> obj_module iface = Ok bm ->
  make_proxy_methods mods client = for_yield (fused_step mods bm client) (dir iface) None.
Proof.
  intros Hi Hm. unfold make_proxy_methods, get_service_methods. rewrite Hi, Hm.
  rewrite for_yield_fuse by apply service_method_step_not_stop.
  apply for_yield_ext. intros x.
  unfold service_method_step, fused_step, delegate_for.
  destruct (negb (MAGIC_METHOD_RE_match x)); [|done].
  destruct (lookup_schema mods bm x) as [spec|]; simpl; [|done].
  destruct (obj_getattr client x) as [method|]; simpl; [|done].
  by destruct (proxy_wrapper method spec).
Qed.

Lemma fused_step_cases mods bm client (l : list string) :
  (forall x, x ∈ l -> exists o, fused_step mods bm client x = Ok o) \/
  (exists x e, x ∈ l /\ fused_step mods bm client x = Raise e).
Proof.
  induction l as [|y l [IH|(x & e & Hin & Hx)]].
  - left. intros x Hx. by apply elem_of_nil in Hx.
  - destruct (fused_step mods bm client y) as [o|e] eqn:Hy.
    + left. intros x [->|Hx]%elem_of_cons; eauto.
    + right. exists y, e. split; [left|done].
  - right. exists x, e. split; [by right|done].
Qed.

Lemma fused_step_Ok mods bm client x o :
  fused_step mods bm client x = Ok o ->
  o = (if MAGIC_METHOD_RE_match x then None
       else match delegate_for mods bm client x with
            | Ok d => Some (x, d)
            | Raise _ => None
            end) /\
  (MAGIC_METHOD_RE_match x = false -> exists d, delegate_for mods bm client x = Ok d).
Proof.
  unfold fused_step. destruct (MAGIC_METHOD_RE_match x); simpl.
  - intros [= <-]. by split.
  - destruct (delegate_for mods bm client x) as [d|]; simpl; [|discriminate].
    intros [= <-]. split; [done|]. eauto.
Qed.

Lemma fused_step_Raise mods bm client x e :
  fused_step mods bm client x = Raise e ->
  MAGIC_METHOD_RE_match x = false /\ delegate_for mods bm client x = Raise e.
Proof.
  unfold fused_step. destruct (MAGIC_METHOD_RE_match x); simpl; [discriminate|].
  destruct (delegate_for mods bm client x); simpl; [discriminate|].
  by intros [= ->].
Qed.

Lemma fused_items_keys mods bm client (l : list string) :
  (forall x, x ∈ l -> exists o, fused_step mods bm client x = Ok o) ->
  (omap (fun x => yielded (fused_step mods bm client x)) l).*1
  = filter (fun x => MAGIC_METHOD_RE_match x = false) l.
Proof.
  induction l as [|x l IH]; intros Hok; [done|].
  destruct (Hok x) as [o Ho]; [left|].
  destruct (fused_step_Ok _ _ _ _ _ Ho) as [-> Hd].
  specialize (IH (fun y Hy => Hok y (list_elem_of_further _ _ _ Hy))).
  cbn [omap list_omap]. rewrite Ho. cbn [yielded].
  destruct (MAGIC_METHOD_RE_match x) eqn:Hm.
  - rewrite filter_cons_False by (by rewrite Hm). exact IH.
  - rewrite filter_cons_True by done. destruct (Hd eq_refl) as [d ->].
    cbn. by rewrite <- IH.
Qed.

Lemma fused_items_elem mods bm client (l : list string) k d :
  (k, d) ∈ omap (fun x => yielded (fused_step mods bm client x)) l <->
  k ∈ l /\ MAGIC_METHOD_RE_match k = false /\ delegate_for mods bm client k = Ok d.
Proof.
  rewrite list_elem_of_omap. unfold yielded, fused_step. split.
  - intros (x & Hin & Hx). destruct (MAGIC_METHOD_RE_match x) eqn:Hm; simpl in Hx; [done|].
    destruct (delegate_for mods bm client x) as [d'|] eqn:Hd; simpl in Hx; [|done].
    injection Hx as <- <-. done.
  - intros (Hin & Hm & Hd). exists k. split; [done|]. by rewrite Hm, Hd.
Qed.

Lemma NoDup_dir o : NoDup (dir o).
Proof.
  unfold dir. rewrite merge_sort_Permutation. apply NoDup_fst_map_to_list.
Qed.

Lemma NoDup_service_names o : NoDup (service_names o).
Proof. apply NoDup_filter, NoDup_dir. Qed.

Lemma elem_of_service_names o x :
  x ∈ service_names o <-> x ∈ dir o /\ MAGIC_METHOD_RE_match x = false.
Proof. unfold service_names. rewrite list_elem_of_filter. tauto. Qed.

(** What a successful construction returns. *)
Lemma make_proxy_Ok_inv mods client iface bm proxy :
  get_interface client = Ok iface -> obj_module iface = Ok bm ->
  make_proxy mods client = Ok proxy ->
  let items := omap (fun x => yielded (fused_step mods bm client x)) (dir iface) in
  proxy_methods proxy = dict_of_items items /\
  items.*1 = service_names iface /\
  (forall x, x ∈ dir iface -> exists o, fused_step mods bm client x = Ok o).
Proof.
  intros Hi Hm. unfold make_proxy, make_proxy_type.
  rewrite (make_proxy_methods_fused mods client iface bm Hi Hm).
  destruct (fused_step_cases mods bm client (dir iface)) as [Hok|(x & e & Hin & Hx)].
  - rewrite (for_yield_all_ok _ _ Hok). unfold py_dict. simpl.
    destruct (obj_module_total client) as [module ->]. simpl.
    intros [= <-]. simpl. split; [done|]. split; [|done].
    by apply fused_items_keys.
  - destruct (for_yield_some_fail _ _ _ _ Hin Hx) as (x' & e' & _ & Hx' & Hstop).
    unfold py_dict. rewrite Hstop.
    apply fused_step_Raise in Hx' as [_ Hd].
    destruct e'; try discriminate.
    by destruct (delegate_for_not_stop mods bm client x').
Qed.

(** A name whose delegate cannot be built makes the construction raise. *)
Lemma make_proxy_fails mods client iface bm x e :
  get_interface client = Ok iface -> obj_module iface = Ok bm ->
  x ∈ service_names iface -> delegate_for mods bm client x = Raise e ->
  exists e', make_proxy mods client = Raise e'.
Proof.
  intros Hi Hm Hx Hd.
  destruct (make_proxy mods client) as [proxy|e'] eqn:Hp; [|eauto].
  destruct (make_proxy_Ok_inv _ _ _ _ _ Hi Hm Hp) as (_ & _ & Hok).
  apply elem_of_service_names in Hx as [Hin Hmagic].
  destruct (Hok x Hin) as [o Ho].
  destruct (fused_step_Ok _ _ _ _ _ Ho) as [_ Hd']. destruct (Hd' Hmagic) as [d Hd''].
  congruence.
Qed.

(** When every service name has a delegate, the proxy is built. *)
Lemma make_proxy_succeeds mods client iface bm :
  get_interface client = Ok iface -> obj_module iface = Ok bm ->
  (forall x, x ∈ service_names iface -> exists d, delegate_for mods bm client x = Ok d) ->
  exists proxy, make_proxy mods client = Ok proxy.
Proof.
  intros Hi Hm Hall. unfold make_proxy, make_proxy_type.
  rewrite (make_proxy_methods_fused mods client iface bm Hi Hm).
  rewrite for_yield_all_ok.
  - unfold py_dict. simpl. destruct (obj_module_total client) as [module ->]. simpl. eauto.
  - intros x Hin. unfold fused_step.
    destruct (MAGIC_METHOD_RE_match x) eqn:Hmagic; simpl; [eauto|].
    destruct (Hall x) as [d ->]; [by apply elem_of_service_names|]. simpl. eauto.
Qed.

Lemma make_proxy_lookup mods client iface bm proxy x d :
  get_interface client = Ok iface -> obj_module iface = Ok bm ->
  make_proxy mods client = Ok proxy ->
  proxy_methods proxy !! x = Some d <->
  x ∈ service_names iface /\ delegate_for mods bm client x = Ok d.
Proof.
  intros Hi Hm Hp.
  destruct (make_proxy_Ok_inv _ _ _ _ _ Hi Hm Hp) as (-> & Hkeys & _).
  rewrite py_dict_lookup by (rewrite Hkeys; apply NoDup_service_names).
  rewrite fused_items_elem, elem_of_service_names. tauto.
Qed.

(** C2. The proxy made by [make_proxy] has a method under a name exactly
    when the name is one of the interface that [MAGIC_METHOD_RE] does not
    match: as many methods as there are such names, each under the name of
    the client method it wraps. *)
Theorem proxy_exposes_exactly_service_methods mods client iface proxy :
  get_interface client = Ok iface -> make_proxy mods client = Ok proxy ->
  (forall x, is_Some (proxy_methods proxy !! x) <-> x ∈ service_names iface) /\
  size (proxy_methods proxy) = length (service_names iface) /\
  (forall x d, proxy_methods proxy !! x = Some d ->
               obj_getattr client x = Ok (AFunc (w_method d))).
Proof.
  intros Hi Hp. destruct (obj_module_total iface) as [bm Hm].
  pose proof (fun x d => make_proxy_lookup mods client iface bm proxy x d Hi Hm Hp) as Hl.
  split; [|split].
  - intros x. split.
    + intros [d Hd]. by apply Hl in Hd as [? _].
    + intros Hx.
      destruct (make_proxy_Ok_inv _ _ _ _ _ Hi Hm Hp) as (_ & _ & Hok).
      pose proof Hx as [Hin Hmagic]%elem_of_service_names.
      destruct (Hok x Hin) as [o Ho].
      destruct (fused_step_Ok _ _ _ _ _ Ho) as [_ Hd]. destruct (Hd Hmagic) as [d Hd'].
      exists d. by apply Hl.
  - destruct (make_proxy_Ok_inv _ _ _ _ _ Hi Hm Hp) as (-> & Hkeys & _).
    rewrite py_dict_size by (rewrite Hkeys; apply NoDup_service_names).
    by rewrite <- Hkeys, length_fmap.
  - intros x d [_ Hd]%Hl. unfold delegate_for in Hd.
    destruct (lookup_schema mods bm x) as [spec|]; [|discriminate]. cbn in Hd.
    destruct (obj_getattr client x) as [[v|m]|]; cbn in Hd; try discriminate.
    destruct (m_doc m); [|discriminate]. by injection Hd as <-.
Qed.

Lemma proxy_exposes_exactly_service_methods_witness :
  (forall x, is_Some (proxy_methods Echo.proxy !! x)
             <-> x ∈ service_names (OClass Echo.Iface)) /\
  size (proxy_methods Echo.proxy) = length (service_names (OClass Echo.Iface)) /\
  (forall x d, proxy_methods Echo.proxy !! x = Some d ->
               obj_getattr Echo.client x = Ok (AFunc (w_method d))).
Proof.
  apply (proxy_exposes_exactly_service_methods
           Echo.modules Echo.client (OClass Echo.Iface) Echo.proxy).
  - reflexivity.
  - vm_compute. reflexivity.
Defined.

Lemma schema_missing_lookup_fails mods bm x :
  schema_missing mods bm x -> exists e, lookup_schema mods bm x = Raise e.
Proof.
  intros (m & Hm & Hargs). unfold lookup_schema, py_import, mod_getattr.
  destruct (String.eqb bm EmptyString); cbn; [eauto|]. rewrite Hm. cbn.
  destruct (m !! (x +:+ "_args")) as [[c|a]|]; cbn; eauto.
  rewrite Hargs. eauto.
Qed.

(** C4. When a service method of the interface has no sibling [m_args]
    in the defining module, or that sibling has no [thrift_spec],
    [make_proxy] raises: no proxy, with some or all of the methods, is
    returned. *)
Theorem missing_schema_aborts_proxy_construction mods client iface bm x :
  get_interface client = Ok iface -> obj_module iface = Ok bm ->
  x ∈ service_names iface -> schema_missing mods bm x ->
  exists e, make_proxy mods client = Raise e.
Proof.
  intros Hi Hm Hx Hmiss.
  destruct (schema_missing_lookup_fails _ _ _ Hmiss) as [e He].
  apply (make_proxy_fails mods client iface bm x e Hi Hm Hx).
  unfold delegate_for. by rewrite He.
Qed.

Lemma missing_schema_aborts_proxy_construction_witness :
  exists e, make_proxy Echo.modules Echo.client_ping = Raise e.
Proof.
  apply (missing_schema_aborts_proxy_construction
           Echo.modules Echo.client_ping (OClass Echo.Iface_ping) "Echo" "ping").
  - reflexivity.
  - reflexivity.
  - vm_compute. apply list_elem_of_further, list_elem_of_here.
  - exists Echo.module. split; [by vm_compute|]. by vm_compute.
Defined.

(** C9. A delegate is built only for a method with a docstring: in a
    proxy that [make_proxy] returns, each delegate wraps the client
    method of its name and its docstring is ['proxy for '], the method
    name and the method's docstring; a service method whose docstring is
    [None] makes [make_proxy] raise; and when every service method has a
    schema and a docstring the proxy is returned. *)
Theorem delegate_docstring_needs_method_docstring mods client iface bm :
  get_interface client = Ok iface -> obj_module iface = Ok bm ->
  (forall proxy x d,
     make_proxy mods client = Ok proxy -> proxy_methods proxy !! x = Some d ->
     exists doc, obj_getattr client x = Ok (AFunc (w_method d)) /\
                 m_doc (w_method d) = Some doc /\
                 w_doc d = "proxy for " +:+ m_name (w_method d) +:+ doc) /\
  (forall x m,
     x ∈ service_names iface -> obj_getattr client x = Ok (AFunc m) ->
     m_doc m = None ->
     exists e, make_proxy mods client = Raise e) /\
  ((forall x, x ∈ service_names iface ->
      exists spec m doc, lookup_schema mods bm x = Ok spec /\
                         obj_getattr client x = Ok (AFunc m) /\ m_doc m = Some doc) ->
   exists proxy, make_proxy mods client = Ok proxy).
Proof.
  intros Hi Hm. split; [|split].
  - intros proxy x d Hp Hd.
    apply (make_proxy_lookup mods client iface bm proxy x d Hi Hm Hp) in Hd as [_ Hd].
    unfold delegate_for in Hd.
    destruct (lookup_schema mods bm x) as [spec|]; [|discriminate]. cbn in Hd.
    destruct (obj_getattr client x) as [[v|m]|]; cbn in Hd; try discriminate.
    destruct (m_doc m) as [doc|] eqn:Hdoc; [|discriminate].
    injection Hd as <-. exists doc. by cbn.
  - intros x m Hx Hget Hdoc.
    destruct (delegate_for mods bm client x) as [d|e] eqn:Hd.
    + unfold delegate_for in Hd.
      destruct (lookup_schema mods bm x) as [spec|]; [|discriminate]. cbn in Hd.
      rewrite Hget in Hd. cbn in Hd. by rewrite Hdoc in Hd.
    + by apply (make_proxy_fails mods client iface bm x e).
  - intros Hall. apply (make_proxy_succeeds mods client iface bm Hi Hm).
    intros x Hx. destruct (Hall x Hx) as (spec & m & doc & Hs & Hg & Hdoc).
    unfold delegate_for. rewrite Hs. cbn. rewrite Hg. cbn. rewrite Hdoc. eauto.
Qed.

Lemma delegate_docstring_needs_method_docstring_witness :
  (exists doc, obj_getattr Echo.client "echo" = Ok (AFunc (w_method Echo.delegate)) /\
               m_doc (w_method Echo.delegate) = Some doc /\
               w_doc Echo.delegate = "proxy for " +:+ m_name (w_method Echo.delegate) +:+ doc) /\
  (exists e, make_proxy Echo.modules Echo.client_undocumented = Raise e).
Proof.
  split.
  - apply (proj1 (delegate_docstring_needs_method_docstring
                    Echo.modules Echo.client (OClass Echo.Iface) "Echo" eq_refl eq_refl)
             Echo.proxy "echo" Echo.delegate).
    + vm_compute. reflexivity.
    + vm_compute. reflexivity.
  - apply (proj1 (proj2 (delegate_docstring_needs_method_docstring
                    Echo.modules Echo.client_undocumented (OClass Echo.Iface) "Echo"
                    eq_refl eq_refl))
             "echo" Echo.echo_undocumented).
    + vm_compute. apply list_elem_of_here.
    + vm_compute. reflexivity.
    + reflexivity.
Defined.

(** * Further properties of the code *)

(** ** get_interface and what it means for make_proxy *)

Lemma first_named_Iface_split bases :
  match first_named_Iface bases with
  | Ok i =>
      exists before b after,
        bases = before ++ b :: after /\ i = OClass b /\ cls_name b = "Iface" /\
        Forall (fun b' => cls_name b' <> "Iface") before
  | Raise e => e = StopIteration /\ Forall (fun b' => cls_name b' <> "Iface") bases
  end.
Proof.
  induction bases as [|b bases IH]; simpl; [by split|].
  destruct (String.eqb (cls_name b) "Iface") eqn:E.
  - apply String.eqb_eq in E. exists [], b, bases. by repeat split.
  - apply String.eqb_neq in E. destruct (first_named_Iface bases) as [i|e].
    + destruct IH as (before & b' & after & -> & -> & Hn & Hall).
      exists (b :: before), b', after. repeat split; [done|]. by constructor.
    + destruct IH as [-> Hall]. split; [done|]. by constructor.
Qed.

(** X1. For a classic class that is not itself named [Iface],
    [get_interface] returns the first direct base named [Iface], and
    raises [StopIteration] exactly when no direct base has that name. *)
Theorem get_interface_first_Iface_base client c :
  getattr_class_or_self client = OClass c ->
  cls_new_style c = false -> cls_name c <> "Iface" ->
  match get_interface client with
  | Ok i =>
      exists before b after,
        cls_bases c = before ++ b :: after /\ i = OClass b /\ cls_name b = "Iface" /\
        Forall (fun b' => cls_name b' <> "Iface") before
  | Raise e =>
      e = StopIteration /\ Forall (fun b' => cls_name b' <> "Iface") (cls_bases c)
  end.
Proof.
  intros Hc Hn Hname. unfold get_interface. rewrite Hc. simpl. rewrite Hn. cbn.
  apply String.eqb_neq in Hname. rewrite Hname.
  apply first_named_Iface_split.
Qed.

Lemma get_interface_first_Iface_base_witness :
  match get_interface Echo.client with
  | Ok i =>
      exists before b after,
        cls_bases Echo.Client = before ++ b :: after /\ i = OClass b /\
        cls_name b = "Iface" /\ Forall (fun b' => cls_name b' <> "Iface") before
  | Raise e =>
      e = StopIteration /\ Forall (fun b' => cls_name b' <> "Iface") (cls_bases Echo.Client)
  end.
Proof.
  apply (get_interface_first_Iface_base Echo.client Echo.Client).
  - reflexivity.
  - reflexivity.
  - discriminate.
Defined.

(** X2. When the class of the client has no base named [Iface], the
    [StopIteration] of [get_interface] ends the generator of
    [get_service_methods] like an exhausted one: [make_proxy] raises
    nothing and returns a proxy without any method. *)
Theorem missing_interface_gives_empty_proxy mods client :
  get_interface client = Raise StopIteration ->
  exists module,
    obj_module client = Ok module /\
    make_proxy mods client = Ok (MkProxy (module +:+ ".Proxy") ∅).
Proof.
  intros Hi. destruct (obj_module_total client) as [module Hm]. exists module.
  split; [done|].
  unfold make_proxy, make_proxy_type, make_proxy_methods, get_service_methods.
  rewrite Hi. simpl. unfold py_dict. simpl. by rewrite Hm.
Qed.

Lemma missing_interface_gives_empty_proxy_witness :
  exists module,
    obj_module Samples.client_without_interface = Ok module /\
    make_proxy Echo.modules Samples.client_without_interface
      = Ok (MkProxy (module +:+ ".Proxy") ∅).
Proof.
  apply (missing_interface_gives_empty_proxy Echo.modules Samples.client_without_interface).
  reflexivity.
Defined.

(** X3. Any other failure of [get_interface], such as the failed
    assertion on a new-style class, comes out of [make_proxy] unchanged. *)
Theorem interface_failure_aborts_make_proxy mods client e :
  get_interface client = Raise e -> e <> StopIteration ->
  make_proxy mods client = Raise e.
Proof.
  intros Hi He.
  unfold make_proxy, make_proxy_type, make_proxy_methods, get_service_methods.
  rewrite Hi. simpl. unfold py_dict. by destruct e.
Qed.

Lemma interface_failure_aborts_make_proxy_witness :
  make_proxy Echo.modules Samples.client_new_style = Raise AssertionError.
Proof.
  apply (interface_failure_aborts_make_proxy Echo.modules Samples.client_new_style).
  - reflexivity.
  - discriminate.
Defined.

Lemma for_yield_first_fail mods bm client (l before after : list string) x e :
  filter (fun y => MAGIC_METHOD_RE_match y = false) l = before ++ x :: after ->
  (forall y, y ∈ before -> exists d, delegate_for mods bm client y = Ok d) ->
  delegate_for mods bm client x = Raise e ->
  gen_stop (for_yield (fused_step mods bm client) l None) = Some e.
Proof.
  revert before. induction l as [|y l IH]; intros before Hf Hbefore Hx.
  - by destruct before.
  - simpl. unfold fused_step at 1.
    destruct (MAGIC_METHOD_RE_match y) eqn:Hm; simpl.
    + rewrite filter_cons_False in Hf by (by rewrite Hm). by apply (IH before).
    + rewrite filter_cons_True in Hf by done.
      destruct before as [|b before]; simpl in Hf; injection Hf as <- Hf.
      * by rewrite Hx.
      * destruct (Hbefore y) as [d ->]; [left|]. simpl.
        apply (IH before); [done| |done].
        intros z Hz. apply Hbefore. by right.
Qed.

(** X4. [make_proxy] raises the error of the first service method, in
    the order of [dir(interface)], whose delegate cannot be built: the
    methods before it are built and dropped, the ones after it are never
    looked at. *)
Theorem make_proxy_raises_first_error mods client iface bm before x after e :
  get_interface client = Ok iface -> obj_module iface = Ok bm ->
  service_names iface = before ++ x :: after ->
  (forall y, y ∈ before -> exists d, delegate_for mods bm client y = Ok d) ->
  delegate_for mods bm client x = Raise e ->
  make_proxy mods client = Raise e.
Proof.
  intros Hi Hm Hnames Hbefore Hx. unfold make_proxy, make_proxy_type.
  rewrite (make_proxy_methods_fused mods client iface bm Hi Hm).
  unfold py_dict.
  rewrite (for_yield_first_fail mods bm client (dir iface) before after x e Hnames Hbefore Hx).
  destruct e; try done.
  by destruct (delegate_for_not_stop mods bm client x).
Qed.

Lemma make_proxy_raises_first_error_witness :
  make_proxy Echo.modules Echo.client_ping = Raise AttributeError.
Proof.
  apply (make_proxy_raises_first_error Echo.modules Echo.client_ping
           (OClass Echo.Iface_ping) "Echo" ["echo"] "ping" []).
  - reflexivity.
  - reflexivity.
  - vm_compute. reflexivity.
  - intros y Hy. apply list_elem_of_singleton in Hy as ->.
    exists Echo.delegate. vm_compute. reflexivity.
  - vm_compute. reflexivity.
Defined.

(** ** The wrapper with return values, and its failures before the call *)

Lemma last_char_snoc s c : last_char (s +:+ String c EmptyString) = Some c.
Proof.
  induction s as [|d s IH]; [done|].
  change (String d s +:+ String c EmptyString)
    with (String d (s +:+ String c EmptyString)).
  simpl. rewrite IH. by destruct s.
Qed.

Lemma softspace_after_call_line name body :
  softspace_after (name +:+ "(" +:+ body +:+ ")") = true.
Proof.
  unfold softspace_after.
  replace (name +:+ "(" +:+ body +:+ ")")
    with ((name +:+ "(" +:+ body) +:+ String ")" EmptyString).
  - by rewrite last_char_snoc.
  - clear. induction name as [|c name IH]; [|exact (f_equal (String c) IH)].
    change ((String "(" body) +:+ String ")" EmptyString = String "(" (body +:+ ")")).
    f_equal.
Qed.

(** X5. With tracing and return values on, a call with labelled
    positional arguments whose backend answers a value that is no tuple
    writes the line, invokes the backend, then writes a blank, the text
    [ -> repr(result)] and a newline, and returns the result: the line
    and the arrow are two blanks apart. *)
Theorem traced_call_with_return_value d p names varargs w result :
  tracing w = true -> return_values w = true -> softspace w = false ->
  length names = length varargs -> labelled (w_spec d) names ->
  let line := m_name (w_method d) +:+ "("
              +:+ str_join ", " (zip_with (fun n v => n +:+ "=" +:+ repr v) names varargs)
              +:+ ")" in
  m_call (w_method d) varargs ∅ (events w ++ [EWrite line]) = Ok result ->
  (forall items, result <> VTuple items) ->
  let r := wrapper d p varargs ∅ w in
  r.1 = Ok result /\
  events r.2 = events w ++ [EWrite line; EInvoke (m_name (w_method d)) varargs ∅;
                             EWrite " "; EWrite (" -> " +:+ repr result); EWrite nl] /\
  softspace r.2 = false.
Proof.
  intros Ht Hrv Hsp Hlen Hlab line Hcall Hnt r. subst r.
  rewrite (wrapper_traced d p varargs ∅ w line Ht
             (trace_line_positional d names varargs Hlen Hlab)).
  unfold traced_world, pre_call_writes. rewrite Hrv, Hsp. cbn zeta. simpl events.
  rewrite app_nil_r. change ([] ++ [EWrite line]) with [EWrite line].
  rewrite Hcall.
  assert (py_format_r " -> " result = Ok (" -> " +:+ repr result)) as ->.
  { destruct result as [| | | |items]; try done. by destruct (Hnt items). }
  unfold print_item, print_newline, log. simpl.
  subst line. rewrite softspace_after_call_line. simpl.
  split; [done|]. split; [|done]. by rewrite <- !app_assoc.
Qed.

Lemma traced_call_with_return_value_witness :
  let r := wrapper Echo.delegate Echo.proxy [VStr "hi"] ∅ (Echo.world true true) in
  r.1 = Ok (VStr "hi") /\
  events r.2 = [] ++ [EWrite "echo(message='hi')"; EInvoke "echo" [VStr "hi"] ∅;
                      EWrite " "; EWrite (" -> " +:+ repr (VStr "hi")); EWrite nl] /\
  softspace r.2 = false.
Proof.
  apply (traced_call_with_return_value Echo.delegate Echo.proxy ["message"] [VStr "hi"]
           (Echo.world true true) (VStr "hi")).
  - reflexivity.
  - reflexivity.
  - reflexivity.
  - reflexivity.
  - intros i n Hi. destruct i as [|i]; [|by destruct i].
    injection Hi as <-. exists (VTuple [VInt 1; VInt 11; VStr "message"; VNone; VNone]).
    split; reflexivity.
  - reflexivity.
  - discriminate.
Defined.

(** X6. With tracing and return values on, a backend result that is a
    tuple of another length than one is taken by [%] as an argument list:
    the wrapper raises [TypeError] after the backend has been invoked, and
    the result is lost to the caller. *)
Theorem tuple_result_fails_after_invocation d p varargs kwargs w line items :
  tracing w = true -> return_values w = true ->
  trace_line d varargs kwargs = Ok line ->
  m_call (w_method d) varargs kwargs (events w ++ pre_call_writes w line)
    = Ok (VTuple items) ->
  length items <> 1 ->
  let r := wrapper d p varargs kwargs w in
  r.1 = Raise TypeError /\
  new_events w r.2 = pre_call_writes w line ++ [EInvoke (m_name (w_method d)) varargs kwargs].
Proof.
  intros Ht Hrv Hl Hcall Hlen r. subst r.
  rewrite (wrapper_traced d p varargs kwargs w line Ht Hl). cbn zeta.
  change (events (traced_world w line)) with (events w ++ pre_call_writes w line).
  rewrite Hcall, Hrv.
  assert (py_format_r " -> " (VTuple items) = Raise TypeError) as ->.
  { destruct items as [|x [|y items]]; done. }
  split; [done|]. unfold new_events, log. simpl.
  by rewrite <- app_assoc, drop_app_length.
Qed.

Lemma tuple_result_fails_after_invocation_witness :
  let w := Echo.world true true in
  let r := wrapper Samples.pair_delegate Echo.proxy [VInt 7] ∅ w in
  r.1 = Raise TypeError /\
  new_events w r.2 = pre_call_writes w "pair(item=7)" ++ [EInvoke "pair" [VInt 7] ∅].
Proof.
  apply (tuple_result_fails_after_invocation Samples.pair_delegate Echo.proxy
           [VInt 7] ∅ (Echo.world true true) "pair(item=7)" [VInt 7; VInt 7]).
  - reflexivity.
  - reflexivity.
  - vm_compute. reflexivity.
  - reflexivity.
  - discriminate.
Defined.

Lemma res_mapM_fails {A B} (f : A -> Res B) (l : list A) x e :
  x ∈ l -> f x = Raise e -> exists e', res_mapM f l = Raise e'.
Proof.
  induction l as [|y l IH]; intros Hin Hx; [by apply elem_of_nil in Hin|].
  simpl. destruct (f y) as [b|e'] eqn:Hy; [|by exists e'].
  apply elem_of_cons in Hin as [->|Hin]; [congruence|].
  destruct (IH Hin Hx) as [e' ->]. by exists e'.
Qed.

(** X7. With tracing on, a call with a positional argument beyond the
    entries of the argument specification stops while its line is built:
    it raises, writes nothing and never reaches the backend. *)
Theorem unlabelled_positional_argument_stops_call d p entries varargs kwargs w :
  tracing w = true -> w_spec d = AVal (VTuple entries) ->
  varargs <> [] -> length entries <= length varargs ->
  exists e, wrapper d p varargs kwargs w = (Raise e, w).
Proof.
  intros Ht Hspec Hne Hlen.
  assert (exists e, trace_line d varargs kwargs = Raise e) as [e He].
  { unfold trace_line. destruct (kwargs_gen kwargs) as [kw|e]; [|by exists e]. cbn.
    set (x := length entries - 1).
    assert (x < length varargs) as Hx.
    { destruct varargs; [done|]. simpl in *. lia. }
    destruct (lookup_lt_is_Some_2 varargs x Hx) as [v Hv].
    destruct (res_mapM_fails (fun xv : nat * PyVal => varargs_item (w_spec d) xv.1 xv.2)
                (zip (seq 0 (length varargs)) varargs) (x, v) IndexError) as [e' ->].
    - apply list_elem_of_lookup. exists x. apply lookup_zip_with_Some.
      exists x, v. split; [done|]. split; [|done]. by apply lookup_seq.
    - unfold varargs_item. rewrite Hspec. cbn.
      rewrite lookup_ge_None_2; [done|]. lia.
    - by exists e'. }
  exists e. by apply wrapper_trace_fails.
Qed.

Lemma unlabelled_positional_argument_stops_call_witness :
  exists e,
    wrapper Echo.delegate Echo.proxy [VStr "hi"; VStr "there"] ∅ (Echo.world true false)
      = (Raise e, Echo.world true false).
Proof.
  apply (unlabelled_positional_argument_stops_call Echo.delegate Echo.proxy
           [VNone; VTuple [VInt 1; VInt 11; VStr "message"; VNone; VNone]]).
  - reflexivity.
  - reflexivity.
  - discriminate.
  - simpl. lia.
Defined.

Lemma stdout_app evs1 evs2 : stdout (evs1 ++ evs2) = stdout evs1 +:+ stdout evs2.
Proof.
  induction evs1 as [|[t|? ? ?] evs1 IH]; simpl; [done| |done].
  rewrite IH. clear. induction t as [|c t IH]; [done|].
  exact (f_equal (String c) IH).
Qed.

Lemma str_app_assoc (a b c : string) : (a +:+ b) +:+ c = a +:+ (b +:+ c).
Proof. induction a as [|x a IH]; [done|]. exact (f_equal (String x) IH). Qed.

Lemma wrapper_line_text d p varargs kwargs w :
  tracing w = true -> return_values w = false -> softspace w = false ->
  let w' := (wrapper d p varargs kwargs w).2 in
  stdout (events w') = stdout (events w) +:+ trace_text (MkCall d varargs kwargs) /\
  tracing w' = true /\ return_values w' = false /\ softspace w' = false.
Proof.
  intros Ht Hrv Hsp. unfold trace_text. simpl.
  destruct (trace_line d varargs kwargs) as [line|e] eqn:Hl.
  - rewrite (wrapper_traced d p varargs kwargs w line Ht Hl).
    unfold traced_world, pre_call_writes. rewrite Hrv, Hsp. cbn zeta. simpl.
    assert (stdout ((events w ++ [EWrite line; EWrite nl])
                    ++ [EInvoke (m_name (w_method d)) varargs kwargs])
            = stdout (events w) +:+ line +:+ nl) as Hout.
    { rewrite !stdout_app. simpl. by rewrite !str_app_nil_r. }
    destruct (m_call (w_method d) varargs kwargs _); simpl; by rewrite Hout.
  - rewrite (wrapper_trace_fails d p varargs kwargs w e Ht Hl). simpl.
    by rewrite str_app_nil_r.
Qed.

(** X8. With tracing on and return values off, a run of calls through
    the delegates adds to standard output one complete line per call whose
    line can be built, in call order, and nothing for the other calls;
    no text of one call runs into the line of the next. *)
Theorem one_complete_line_per_traced_call p (calls : list Call) w :
  tracing w = true -> return_values w = false -> softspace w = false ->
  stdout (events (run_calls p calls w).2)
    = stdout (events w) +:+ str_concat (map trace_text calls) /\
  softspace (run_calls p calls w).2 = false.
Proof.
  revert w. induction calls as [|c calls IH]; intros w Ht Hrv Hsp; simpl.
  - by rewrite str_app_nil_r.
  - destruct (wrapper_line_text (c_delegate c) p (c_varargs c) (c_kwargs c) w Ht Hrv Hsp)
      as (Hout & Ht' & Hrv' & Hsp').
    destruct (wrapper (c_delegate c) p (c_varargs c) (c_kwargs c) w) as [r w1].
    simpl in *. specialize (IH w1 Ht' Hrv' Hsp').
    destruct (run_calls p calls w1) as [rs w2]. simpl in *.
    destruct IH as [-> ->]. split; [|done].
    rewrite Hout, str_app_assoc. by destruct c.
Qed.

Lemma one_complete_line_per_traced_call_witness :
  let calls := [MkCall Echo.delegate [VStr "hi"] ∅;
                MkCall Echo.delegate [] {[ "message" := VStr "hi" ]};
                MkCall Echo.failing_delegate [VStr "x"] ∅] in
  stdout (events (run_calls Echo.proxy calls (Echo.world true false)).2)
    = "echo(message='hi')" +:+ nl +:+ "echo(message='x')" +:+ nl /\
  softspace (run_calls Echo.proxy calls (Echo.world true false)).2 = false.
Proof.
  pose proof (one_complete_line_per_traced_call Echo.proxy
           [MkCall Echo.delegate [VStr "hi"] ∅;
            MkCall Echo.delegate [] {[ "message" := VStr "hi" ]};
            MkCall Echo.failing_delegate [VStr "x"] ∅]
           (Echo.world true false) eq_refl eq_refl eq_refl) as H.
  vm_compute in H. vm_compute. exact H.
Defined.

(** ** MAGIC_METHOD_RE *)

Lemma str_cons_app c (s t : string) : String c s +:+ t = String c (s +:+ t).
Proof. reflexivity. Qed.

Lemma magic_tail_unfold s :
  magic_tail s =
    (String.eqb s "__" || String.eqb s ("__" +:+ nl) ||
     match s with
     | String c s' => negb (Ascii.eqb c newline) && magic_tail s'
     | EmptyString => false
     end).
Proof. by destruct s. Qed.

Lemma str_mem_cons a d s : str_mem a (String d s) = Ascii.eqb a d || str_mem a s.
Proof. reflexivity. Qed.

Lemma magic_tail_true s :
  magic_tail s = true ->
  exists mid tail, s = mid +:+ "__" +:+ tail /\ str_mem newline mid = false /\
                   (tail = EmptyString \/ tail = nl).
Proof.
  induction s as [|c s IH]; rewrite magic_tail_unfold.
  - intros H. simpl in H. discriminate.
  - intros [[H|H]%orb_true_iff|H]%orb_true_iff.
    + apply String.eqb_eq in H. exists EmptyString, EmptyString. rewrite H. by auto.
    + apply String.eqb_eq in H. exists EmptyString, nl. rewrite H. by auto.
    + apply andb_true_iff in H as [Hc Hs].
      destruct (IH Hs) as (mid & tail & -> & Hmid & Htail).
      exists (String c mid), tail. split; [done|]. split; [|done].
      rewrite str_mem_cons. apply negb_true_iff in Hc.
      rewrite Ascii.eqb_sym in Hc. by rewrite Hc.
Qed.

Lemma magic_tail_of_split mid tail :
  str_mem newline mid = false -> tail = EmptyString \/ tail = nl ->
  magic_tail (mid +:+ "__" +:+ tail) = true.
Proof.
  intros Hmid Htail. induction mid as [|c mid IH].
  - by destruct Htail as [-> | ->].
  - rewrite str_cons_app, magic_tail_unfold.
    rewrite str_mem_cons in Hmid. apply orb_false_iff in Hmid as [Hc Hmid].
    rewrite (IH Hmid), andb_true_r. rewrite Ascii.eqb_sym in Hc. rewrite Hc.
    apply orb_true_r.
Qed.

(** X9. [MAGIC_METHOD_RE] matches exactly the names made of two
    underscores, one or more characters none of which is a newline, and
    two underscores again, with at most one newline after them: four
    underscores alone are not matched. *)
Theorem magic_names_are_dunder_bracketed s :
  MAGIC_METHOD_RE_match s = true <->
  exists mid tail,
    s = "__" +:+ mid +:+ "__" +:+ tail /\ mid <> EmptyString /\
    str_mem newline mid = false /\ (tail = EmptyString \/ tail = nl).
Proof.
  split.
  - intros H.
    destruct s as [|a s]; [discriminate|].
    destruct a as [[] [] [] [] [] [] [] []]; try discriminate.
    destruct s as [|b s]; [discriminate|].
    destruct b as [[] [] [] [] [] [] [] []]; try discriminate.
    destruct s as [|c rest]; [discriminate|].
    cbn in H. apply andb_true_iff in H as [Hc Hrest].
    destruct (magic_tail_true rest Hrest) as (mid & tail & -> & Hmid & Htail).
    exists (String c mid), tail. split; [done|]. split; [done|]. split; [|done].
    rewrite str_mem_cons. apply negb_true_iff in Hc.
    rewrite Ascii.eqb_sym in Hc. by rewrite Hc.
  - intros (mid & tail & -> & Hne & Hmid & Htail).
    destruct mid as [|c mid]; [done|].
    rewrite str_mem_cons in Hmid. apply orb_false_iff in Hmid as [Hc Hmid].
    change (MAGIC_METHOD_RE_match (String "_" (String "_" (String c (mid +:+ "__" +:+ tail)))) = true).
    unfold MAGIC_METHOD_RE_match. rewrite Ascii.eqb_sym in Hc. rewrite Hc.
    by apply magic_tail_of_split.
Qed.

Lemma magic_names_are_dunder_bracketed_witness :
  MAGIC_METHOD_RE_match "__init__" = true /\ MAGIC_METHOD_RE_match "____" = false.
Proof.
  split.
  - apply (proj2 (magic_names_are_dunder_bracketed "__init__")).
    exists "init", EmptyString. split; [reflexivity|]. split; [discriminate|].
    split; [reflexivity|by left].
  - reflexivity.
Defined.

(** ** The listing under --verbose *)

Lemma stdout_write t : stdout [EWrite t] = t.
Proof. apply str_app_nil_r. Qed.

Lemma verbose_loop_cons proxy x (spec : Attr) items d w :
  proxy_methods proxy !! x = Some d -> softspace w = false ->
  exists w1,
    verbose_loop proxy ((x, spec) :: items) w = verbose_loop proxy items w1 /\
    stdout (events w1) = stdout (events w) +:+ listing_text proxy x /\
    softspace w1 = false.
Proof.
  intros Hd Hsp. eexists. split; [|split].
  - cbn [verbose_loop]. unfold mbind, M_bind, print_item, lift, proxy_getattr_doc,
      print_newline. rewrite Hd, Hsp. cbn. reflexivity.
  - unfold listing_text. rewrite Hd. unfold log. cbn [events softspace].
    destruct (softspace_after x); cbn [events];
      rewrite !stdout_app, !stdout_write, ?str_app_assoc; reflexivity.
  - reflexivity.
Qed.

Lemma verbose_loop_text mods bm proxy (l : list string) w :
  (forall x, x ∈ l -> MAGIC_METHOD_RE_match x = false ->
     (exists spec, lookup_schema mods bm x = Ok spec) /\
     exists d, proxy_methods proxy !! x = Some d) ->
  softspace w = false ->
  exists w',
    for_yield (service_method_step mods bm) l None
      = MkGen (omap (fun x => yielded (service_method_step mods bm x)) l) None /\
    verbose_loop proxy (omap (fun x => yielded (service_method_step mods bm x)) l) w
      = (Ok tt, w') /\
    stdout (events w') = stdout (events w) +:+
      str_concat (map (listing_text proxy)
                      (filter (fun x => MAGIC_METHOD_RE_match x = false) l)) /\
    softspace w' = false.
Proof.
  revert w. induction l as [|x l IH]; intros w Hall Hsp.
  - exists w. simpl. by rewrite str_app_nil_r.
  - assert (forall y, y ∈ l -> MAGIC_METHOD_RE_match y = false ->
              (exists spec, lookup_schema mods bm y = Ok spec) /\
              exists d, proxy_methods proxy !! y = Some d) as Hl
      by (intros y Hy; apply Hall; by right).
    cbn [for_yield omap list_omap].
    destruct (MAGIC_METHOD_RE_match x) eqn:Hm.
    + assert (service_method_step mods bm x = Ok None) as ->
        by (unfold service_method_step; by rewrite Hm).
      cbn [yielded]. rewrite filter_cons_False by (by rewrite Hm). by apply IH.
    + rewrite filter_cons_True by done.
      destruct (Hall x) as [[spec Hs] [d Hd]]; [left|done|].
      assert (service_method_step mods bm x = Ok (Some (x, spec))) as ->
        by (unfold service_method_step; by rewrite Hm, Hs).
      cbn [yielded].
      destruct (verbose_loop_cons proxy x spec
                  (omap (fun x => yielded (service_method_step mods bm x)) l)
                  d w Hd Hsp) as (w1 & Hstep & Hout & Hsp1).
      destruct (IH w1 Hl Hsp1) as (w' & Hgen & Hrun & Hout' & Hsp').
      exists w'. rewrite Hgen. cbn [gen_items gen_stop]. split; [done|].
      rewrite Hstep, Hrun. split; [done|]. split; [|done].
      rewrite Hout', Hout. cbn [map str_concat]. by rewrite str_app_assoc.
Qed.

Lemma delegate_for_Ok_inv mods bm client x d :
  delegate_for mods bm client x = Ok d ->
  exists spec m doc,
    lookup_schema mods bm x = Ok spec /\ obj_getattr client x = Ok (AFunc m) /\
    m_doc m = Some doc /\ d = MkWrapper m spec ("proxy for " +:+ m_name m +:+ doc).
Proof.
  unfold delegate_for.
  destruct (lookup_schema mods bm x) as [spec|]; simpl; [|discriminate].
  destruct (obj_getattr client x) as [[v|m]|]; simpl; try discriminate.
  destruct (m_doc m) as [doc|] eqn:Hdoc; [|discriminate].
  intros [= <-]. by exists spec, m, doc.
Qed.

(** X10. Under [--verbose], once [make_proxy] has returned the proxy, the
    loop of lines 132-134 of [main] ends without an exception and adds to
    standard output one line per service method, in the order of
    [dir(interface)]: the name, a blank (unless the name ends in
    whitespace other than a blank), then the delegate's docstring
    ['proxy for ' + name + docstring of the client's method], then a
    newline. *)
Theorem verbose_listing_prints_every_delegate mods client iface bm proxy w :
  get_interface client = Ok iface -> obj_module iface = Ok bm ->
  make_proxy mods client = Ok proxy -> softspace w = false ->
  (exists w',
     verbose_listing mods client proxy w = (Ok tt, w') /\
     stdout (events w') = stdout (events w) +:+
       str_concat (map (listing_text proxy) (service_names iface)) /\
     softspace w' = false) /\
  (forall x, x ∈ service_names iface ->
     exists m doc,
       obj_getattr client x = Ok (AFunc m) /\ m_doc m = Some doc /\
       listing_text proxy x =
         x +:+ (if softspace_after x then " " else EmptyString) +:+
         ("proxy for " +:+ m_name m +:+ doc) +:+ nl).
Proof.
  intros Hi Hm Hp Hsp.
  assert (forall x, x ∈ service_names iface ->
            exists d, delegate_for mods bm client x = Ok d /\
                      proxy_methods proxy !! x = Some d) as Hdel.
  { intros x Hx.
    destruct (make_proxy_Ok_inv _ _ _ _ _ Hi Hm Hp) as (_ & _ & Hok).
    pose proof Hx as [Hin Hmagic]%elem_of_service_names.
    destruct (Hok x Hin) as [o Ho].
    destruct (fused_step_Ok _ _ _ _ _ Ho) as [_ Hd]. destruct (Hd Hmagic) as [d Hd'].
    exists d. split; [done|].
    by apply (make_proxy_lookup mods client iface bm proxy x d Hi Hm Hp). }
  split.
  - destruct (verbose_loop_text mods bm proxy (dir iface) w) as (w' & Hgen & Hrun & Hout & Hsp');
      [|done|].
    { intros x Hin Hmagic.
      destruct (Hdel x) as (d & Hd & Hl); [by apply elem_of_service_names|].
      destruct (delegate_for_Ok_inv _ _ _ _ _ Hd) as (spec & _ & _ & Hs & _).
      split; eauto. }
    exists w'. split; [|by split].
    unfold verbose_listing, get_service_methods. rewrite Hi, Hm, Hgen.
    cbn [gen_items gen_stop]. unfold mbind, M_bind. by rewrite Hrun.
  - intros x Hx. destruct (Hdel x Hx) as (d & Hd & Hl).
    destruct (delegate_for_Ok_inv _ _ _ _ _ Hd) as (spec & m & doc & _ & Hg & Hdoc & ->).
    exists m, doc. split; [done|]. split; [done|].
    unfold listing_text. by rewrite Hl.
Qed.

Lemma verbose_listing_prints_every_delegate_witness :
  (exists w',
     verbose_listing Echo.modules Echo.client Echo.proxy (Echo.world true false) = (Ok tt, w') /\
     stdout (events w') = "echo proxy for echodoc" +:+ nl).
Proof.
  destruct (verbose_listing_prints_every_delegate Echo.modules Echo.client
              (OClass Echo.Iface) "Echo" Echo.proxy (Echo.world true false)
              eq_refl eq_refl eq_refl eq_refl) as [(w' & Hrun & Hout & _) _].
  exists w'. split; [exact Hrun|]. rewrite Hout. vm_compute. reflexivity.
Defined.

(** ** make_client, further properties *)

(** X11. The body of the [with] statement runs exactly when the socket,
    the framed or buffered transport, the protocol and the client have
    been constructed and [open] has returned; in every other case the
    statement ends with an exception. *)
Theorem body_runs_iff_connection_is_set_up
    (env : Connection.Env) (port : Z) (hostname : string) (buffered : bool)
    (body : PyObj -> option PyExc) :
  let r := Connection.with_make_client env port hostname buffered body in
  (In Connection.Body r.1 <->
     Connection.socket_raises env = None /\ Connection.wrap_raises env = None /\
     Connection.protocol_raises env = None /\
     (exists c, Connection.client_result env = Ok c) /\
     Connection.open_raises env = None) /\
  (~ In Connection.Body r.1 -> exists e, r.2 = Some e).
Proof.
  destruct env as [s w p c o cl].
  unfold Connection.with_make_client, Connection.cm_enter,
    Connection.make_client_next, Connection.cm_exit,
    Connection.make_client_resume, Connection.finally_close. simpl.
  assert (forall (t : list Connection.Step) (out : option PyExc) (Q : Prop),
            ~ In Connection.Body t -> ~ Q -> (exists e, out = Some e) ->
            (In Connection.Body t <-> Q) /\
            (~ In Connection.Body t -> exists e, out = Some e)) as Hfail
    by (intros t out Q Ht HQ Hout; split; [tauto|done]).
  assert (forall t : list Connection.Step,
            forallb (fun s => negb (match s with Connection.Body => true | _ => false end)) t
              = true -> ~ In Connection.Body t) as Hnot.
  { intros t Ht Hin. rewrite forallb_forall in Ht. by specialize (Ht _ Hin). }
  destruct s as [es|]; simpl.
  { destruct es; apply Hfail; eauto; try (by apply Hnot); intros (? & _); congruence. }
  destruct w as [ew|]; simpl.
  { destruct ew; apply Hfail; eauto; try (by apply Hnot); intros (_ & ? & _); congruence. }
  destruct p as [ep|]; simpl.
  { destruct cl as [[]|], ep; apply Hfail; eauto; try (by apply Hnot);
      intros (_ & _ & ? & _); congruence. }
  destruct c as [client|ec]; simpl.
  2: { destruct cl as [[]|], ec; apply Hfail; eauto; try (by apply Hnot);
         intros (_ & _ & _ & [? ?] & _); congruence. }
  destruct o as [eo|]; simpl.
  { destruct cl as [[]|], eo; apply Hfail; eauto; try (by apply Hnot);
      intros (_ & _ & _ & _ & ?); congruence. }
  assert (In Connection.Body
            ([Connection.TSocket hostname port; Connection.TWrap buffered;
              Connection.TBinaryProtocol; Connection.ClientInterface;
              Connection.TransportOpen; Connection.Body; Connection.TransportClose])) as Hin
    by (simpl; tauto).
  split.
  - split; [intros _; repeat split; eauto|]. intros _. by destruct (body client).
  - intros H. exfalso. apply H. by destruct (body client).
Qed.

(** X12. When the connection is set up and [close] returns, the scope is
    transparent: the steps are the five of the set-up, the body and one
    [close], and the statement ends as the body ends, whatever exception
    the body raised. *)
Theorem scope_passes_body_outcome_through
    (env : Connection.Env) (port : Z) (hostname : string) (buffered : bool)
    (body : PyObj -> option PyExc) (client : PyObj) :
  Connection.transport_built env ->
  Connection.protocol_raises env = None ->
  Connection.client_result env = Ok client ->
  Connection.open_raises env = None ->
  Connection.close_raises env = None ->
  Connection.with_make_client env port hostname buffered body =
    ([Connection.TSocket hostname port; Connection.TWrap buffered;
      Connection.TBinaryProtocol; Connection.ClientInterface;
      Connection.TransportOpen; Connection.Body; Connection.TransportClose],
     body client).
Proof.
  destruct env as [s w p c o cl]. intros [Hs Hw] Hp Hc Ho Hcl.
  simpl in *. subst.
  unfold Connection.with_make_client, Connection.cm_enter,
    Connection.make_client_next, Connection.cm_exit,
    Connection.make_client_resume, Connection.finally_close. simpl.
  by destruct (body client).
Qed.

Lemma scope_passes_body_outcome_through_witness :
  Connection.with_make_client
    (Connection.MkEnv None None None (Ok Echo.client) None None)
    9090 "localhost" false (fun _ => Some StopIteration) =
    ([Connection.TSocket "localhost" 9090; Connection.TWrap false;
      Connection.TBinaryProtocol; Connection.ClientInterface;
      Connection.TransportOpen; Connection.Body; Connection.TransportClose],
     Some StopIteration).
Proof.
  apply (scope_passes_body_outcome_through
           (Connection.MkEnv None None None (Ok Echo.client) None None)
           9090 "localhost" false (fun _ => Some StopIteration) Echo.client);
    try reflexivity.
  split; reflexivity.
Defined.

(** X13. An exception of [transport.close()] in the [finally] clause
    replaces whatever was pending: once the transport is built, the
    statement ends with the exception of [close], whether the set-up
    failed, the body raised or the body completed. *)
Theorem failing_close_replaces_outcome
    (env : Connection.Env) (port : Z) (hostname : string) (buffered : bool)
    (body : PyObj -> option PyExc) (e : PyExc) :
  Connection.transport_built env ->
  Connection.close_raises env = Some e -> e <> StopIteration ->
  (Connection.with_make_client env port hostname buffered body).2 = Some e.
Proof.
  destruct env as [s w p c o cl]. intros [Hs Hw] Hcl He. simpl in *. subst.
  unfold Connection.with_make_client, Connection.cm_enter,
    Connection.make_client_next, Connection.cm_exit,
    Connection.make_client_resume, Connection.finally_close. simpl.
  destruct p as [ep|]; simpl; [by destruct e|].
  destruct c as [client|ec]; simpl; [|by destruct e].
  destruct o as [eo|]; simpl; [by destruct e|].
  destruct (body client); simpl; by destruct e.
Qed.

Lemma failing_close_replaces_outcome_witness :
  (Connection.with_make_client
     (Connection.MkEnv None None None (Ok Echo.client) None (Some ValueError))
     9090 "localhost" true (fun _ => Some TypeError)).2 = Some ValueError.
Proof.
  apply (failing_close_replaces_outcome
           (Connection.MkEnv None None None (Ok Echo.client) None (Some ValueError))
           9090 "localhost" true (fun _ => Some TypeError) ValueError).
  - split; reflexivity.
  - reflexivity.
  - discriminate.
Defined.

(** X14. [transport.close()] is never called on a transport that was not
    built: the scope closes the transport if and only if both
    constructors of lines 100-101 have returned. *)
Theorem no_close_without_transport
    (env : Connection.Env) (port : Z) (hostname : string) (buffered : bool)
    (body : PyObj -> option PyExc) :
  Connection.closes (Connection.with_make_client env port hostname buffered body).1 = 0
  <-> ~ Connection.transport_built env.
Proof.
  destruct env as [s w p c o cl].
  unfold Connection.transport_built, Connection.with_make_client, Connection.cm_enter,
    Connection.make_client_next, Connection.cm_exit,
    Connection.make_client_resume, Connection.finally_close. simpl.
  destruct s as [es|]; simpl.
  { split; [intros _ [? _]; discriminate|by destruct es]. }
  destruct w as [ew|]; simpl.
  { split; [intros _ [_ ?]; discriminate|by destruct ew]. }
  assert (forall n, S n = 0 <-> ~ (@None PyExc = None /\ @None PyExc = None)) as Hno
    by (intros n; split; [discriminate|intros H; exfalso; by apply H]).
  destruct p as [ep|]; simpl.
  { destruct cl as [[]|], ep; simpl; apply Hno. }
  destruct c as [client|ec]; simpl.
  2: { destruct cl as [[]|], ec; simpl; apply Hno. }
  destruct o as [eo|]; simpl.
  { destruct cl as [[]|], eo; simpl; apply Hno. }
  destruct (body client) as [eb|]; simpl; apply Hno.
Qed.

(** ** main: the module name, further properties *)

Lemma substring_split (n : nat) (s : string) :
  n <= String.length s ->
  substring 0 n s +:+ substring n (String.length s - n) s = s.
Proof.
  revert s. induction n as [|n IH]; intros s Hn.
  - rewrite Nat.sub_0_r, substring_all. by destruct s.
  - destruct s as [|c s]; simpl in Hn; [lia|].
    simpl. exact (f_equal (String c) (IH s ltac:(lia))).
Qed.

Lemma endswith_split (s suffix : string) :
  endswith s suffix = true ->
  slice_to_neg (String.length suffix) s +:+ suffix = s.
Proof.
  unfold endswith, slice_to_neg.
  intros [Hlen Heq]%andb_true_iff. apply Nat.leb_le in Hlen.
  apply String.eqb_eq in Heq.
  pose proof (substring_split (String.length s - String.length suffix) s
                ltac:(lia)) as H.
  replace (String.length s - (String.length s - String.length suffix))
    with (String.length suffix) in H by lia.
  by rewrite Heq in H.
Qed.

(** X15. Stripping loses nothing but the suffix: a service type name
    that ends in [.Client] is the module name found for it followed by
    [.Client], and the module name is 7 characters shorter. *)
Theorem stripped_name_plus_suffix_is_given_name (name : string) :
  endswith name ".Client" = true ->
  base_module_name name +:+ ".Client" = name /\
  String.length (base_module_name name) + 7 = String.length name.
Proof.
  intros H. assert (base_module_name name +:+ ".Client" = name) as Heq.
  { unfold base_module_name. rewrite H. exact (endswith_split name ".Client" H). }
  split; [done|].
  rewrite <- Heq at 2. by rewrite length_app_str.
Qed.

Lemma stripped_name_plus_suffix_is_given_name_witness :
  base_module_name "pkg.Echo.Client" +:+ ".Client" = "pkg.Echo.Client" /\
  String.length (base_module_name "pkg.Echo.Client") + 7 = String.length "pkg.Echo.Client".
Proof.
  apply (stripped_name_plus_suffix_is_given_name "pkg.Echo.Client"). reflexivity.
Defined.

(** X16. The suffix is optional: for a module name that does not itself
    end in [.Client], giving the name with the suffix loads the same
    client and processor types, or fails in the same way, as giving it
    without. *)
Theorem client_suffix_is_optional (mods : Modules) (name : string) :
  endswith name ".Client" = false ->
  load_types mods (name +:+ ".Client") = load_types mods name.
Proof.
  intros H. unfold load_types.
  assert (base_module_name (name +:+ ".Client") = name) as ->.
  { unfold base_module_name. rewrite endswith_app.
    apply (slice_to_neg_app name ".Client"). }
  assert (base_module_name name = name) as ->; [|done].
  unfold base_module_name. by rewrite H.
Qed.

Lemma client_suffix_is_optional_witness :
  load_types Echo.modules "Echo.Client" = load_types Echo.modules "Echo".
Proof.
  apply (client_suffix_is_optional Echo.modules "Echo"). reflexivity.
Defined.
